(** * A shallow embedding of the coverage-model persistence core

    The dispatcher of [coverage_model/brick_dispatch.py], the slice calculator,
    storage read path and domain expansion of [coverage_model/persistence.py],
    the expression evaluation of [coverage_model/parameter_functions.py] and the
    QC functions of [ion_functions/qc_functions.py]. *)

From Stdlib Require Import ZArith QArith Qround Qabs Qminmax Ascii Lia Lqa.
From stdpp Require Import base gmap list strings.

(* ===================================================================== *)
(** ** Brick write dispatcher ([brick_dispatch.py]) *)
(* ===================================================================== *)

Module Dispatch.

(** Brick keys, brick metrics, single (brick_slice, value) work entries and
    worker guids are opaque to the dispatcher: they are only compared and
    copied.  They are modelled as natural numbers. *)
Definition work_key := nat.
Definition metrics := nat.
Definition work_entry := nat.
Definition worker_id := nat.

Definition WORK_FAILURE_RETRIES : nat := 4.

(** Byte strings produced by [pack] (msgpack).  [pack] of a work tuple gives
    [Enc k m w]; [pack] of a byte string (an already packed work) gives
    [EncBytes b], a different byte string. *)
Inductive blob :=
| Enc (k : work_key) (m : metrics) (w : list work_entry)
| EncBytes (b : blob).

#[global] Instance blob_eq_dec : EqDecision blob.
Proof. intros x y. unfold Decision. decide equality; try apply list_eq_dec; apply Nat.eq_dec. Defined.

Definition unpack (b : blob) : option (work_key * metrics * list work_entry) :=
  match b with
  | Enc k m w => Some (k, m, w)
  | EncBytes _ => None
  end.

(** The [_failures] dict, keyed by byte strings (a Python dict, in insertion
    order). *)
Fixpoint dict_get (d : list (blob * nat)) (k : blob) : option nat :=
  match d with
  | [] => None
  | (k', v) :: r => if decide (k = k') then Some v else dict_get r k
  end.

Fixpoint dict_set (d : list (blob * nat)) (k : blob) (v : nat) : list (blob * nat) :=
  match d with
  | [] => [(k, v)]
  | (k', v') :: r => if decide (k = k') then (k, v) :: r else (k', v') :: dict_set r k v
  end.

Fixpoint dict_pop (d : list (blob * nat)) (k : blob) : list (blob * nat) :=
  match d with
  | [] => []
  | (k', v') :: r => if decide (k = k') then r else (k', v') :: dict_pop r k
  end.

(** Dispatcher state.  [callbacks], [submitted] and [written] are ghost
    logs: the calls made to the user's [failure_callback], the [put_work]
    calls of users, and the work entries the workers wrote to each brick. *)
Record dstate := mkD {
  prep_queue : list (work_key * metrics * list work_entry);
  work_queue : list work_key;
  pending_work : gmap work_key (metrics * list work_entry);
  stashed_work : gmap work_key (metrics * list work_entry);
  active_work : gmap work_key (worker_id * blob);
  failures : list (blob * nat);
  callbacks : list (string * (work_key * metrics * list work_entry));
  submitted : list (work_key * list work_entry);
  written : list (work_key * list work_entry)
}.

Definition init : dstate := mkD [] [] ∅ ∅ ∅ [] [] [] [].

Definition set_prep s p := mkD p (work_queue s) (pending_work s) (stashed_work s)
  (active_work s) (failures s) (callbacks s) (submitted s) (written s).
Definition set_wq s q := mkD (prep_queue s) q (pending_work s) (stashed_work s)
  (active_work s) (failures s) (callbacks s) (submitted s) (written s).
Definition set_pending s p := mkD (prep_queue s) (work_queue s) p (stashed_work s)
  (active_work s) (failures s) (callbacks s) (submitted s) (written s).
Definition set_stashed s t := mkD (prep_queue s) (work_queue s) (pending_work s) t
  (active_work s) (failures s) (callbacks s) (submitted s) (written s).
Definition set_active s a := mkD (prep_queue s) (work_queue s) (pending_work s)
  (stashed_work s) a (failures s) (callbacks s) (submitted s) (written s).
Definition set_failures s f := mkD (prep_queue s) (work_queue s) (pending_work s)
  (stashed_work s) (active_work s) f (callbacks s) (submitted s) (written s).
Definition set_callbacks s c := mkD (prep_queue s) (work_queue s) (pending_work s)
  (stashed_work s) (active_work s) (failures s) c (submitted s) (written s).
Definition set_submitted s u := mkD (prep_queue s) (work_queue s) (pending_work s)
  (stashed_work s) (active_work s) (failures s) (callbacks s) u (written s).
Definition set_written s u := mkD (prep_queue s) (work_queue s) (pending_work s)
  (stashed_work s) (active_work s) (failures s) (callbacks s) (submitted s) u.

(** [put_work]: append to the prep queue. *)
Definition put_work (s : dstate) (k : work_key) (wm : metrics) (w : list work_entry) : dstate :=
  set_prep s (prep_queue s ++ [(k, wm, w)]).

(** The body of the [_work_organizer] loop for one item [(k, wm, w)] taken
    from the prep queue (work is always a list here). *)
Definition organize_core (s : dstate) (k : work_key) (wm : metrics) (w : list work_entry) : dstate :=
    match active_work s !! k with
    | Some _ =>
      (* Do Stash *)
      let '(sm, sv) := default (wm, []) (stashed_work s !! k) in
      set_stashed s (<[k := (sm, sv ++ w)]> (stashed_work s))
    | None =>
      (* prepend the stash, if any *)
      let '(w', st') :=
        match stashed_work s !! k with
        | Some (_, sv) => (sv ++ w, delete k (stashed_work s))
        | None => (w, stashed_work s)
        end in
      let s1 := set_stashed s st' in
      match pending_work s1 !! k with
      | Some (pm, pv) => set_pending s1 (<[k := (pm, pv ++ w')]> (pending_work s1))
      | None =>
        set_wq (set_pending s1 (<[k := (wm, w')]> (pending_work s1))) (work_queue s1 ++ [k])
      end
    end.

Definition organize_item (s : dstate) (k : work_key) (wm : metrics) (w : list work_entry) : dstate :=
  match stashed_work s !! k, w with
  | None, [] => s  (* Discarding empty work *)
  | _, _ => organize_core s k wm w
  end.

(** [_add_failure(wp)]: the counter is keyed by [pack(wp)]; returns the new
    failures dict and whether [ValueError] was raised. *)
Definition add_failure (f : list (blob * nat)) (wp : blob) : list (blob * nat) * bool :=
  let pwp := EncBytes wp in
  let c := match dict_get f pwp with Some n => S n | None => 1 end in
  (dict_set f pwp c, Nat.ltb WORK_FAILURE_RETRIES c).

Definition max_retries_msg : string := "Maximum failure retries exceeded".

(** The failure handling shared by both branches of the receiver, once the
    active entry [pw] has been popped; [retry] is the work put back. *)
Definition handle_failure (s : dstate) (pw : blob) (k : work_key) (retry : list work_entry) : option dstate :=
  let '(f', raised) := add_failure (failures s) pw in
  let s1 := set_failures s f' in
  match unpack pw with
  | None => None
  | Some (k0, wm, w0) =>
    if raised then Some (set_callbacks s1 (callbacks s1 ++ [(max_retries_msg, (k0, wm, w0))]))
    else Some (put_work s1 k wm retry)
  end.

(** The events the three dispatcher tasks react to. *)
Inductive event :=
| EPut (k : work_key) (wm : metrics) (w : list work_entry)  (* a user calls put_work *)
| EOrganize                        (* the organizer pops one prep-queue item *)
| ETick                            (* the organizer's 1 s poll times out *)
| EProvision (wid : worker_id)     (* a worker requests work *)
| ESuccess (wid : worker_id) (k : work_key)
| EFailure (wid : worker_id) (k : work_key) (n : nat)
    (* the worker wrote the first [n] entries, then failed; it reports the rest *)
| EFailureNone (wid : worker_id).  (* the worker failed before decoding its work *)

Definition find_by_worker (a : gmap work_key (worker_id * blob)) (wid : worker_id) : option work_key :=
  (fun p => fst (snd p)) <$> list_find (fun '(_, (g, _)) => g = wid) (map_to_list a).

Definition blob_work (b : blob) : list work_entry :=
  match b with Enc _ _ w => w | EncBytes _ => [] end.

Definition step (s : dstate) (e : event) : option dstate :=
  match e with
  | EPut k wm w => Some (set_submitted (put_work s k wm w) (submitted s ++ [(k, w)]))
  | EOrganize =>
    match prep_queue s with
    | [] => None
    | (k, wm, w) :: r => Some (organize_item (set_prep s r) k wm w)
    end
  | ETick =>
    match prep_queue s with
    | [] => Some (set_prep s (map (fun '(k, (sm, _)) => (k, sm, [])) (map_to_list (stashed_work s))))
    | _ :: _ => None
    end
  | EProvision wid =>
    match work_queue s with
    | [] => None
    | k :: r =>
      match pending_work s !! k with
      | None => None  (* KeyError *)
      | Some (wm, w) =>
        Some (set_active (set_pending (set_wq s r) (delete k (pending_work s)))
                (<[k := (wid, Enc k wm w)]> (active_work s)))
      end
    end
  | ESuccess wid k =>
    match active_work s !! k with
    | None => None  (* KeyError *)
    | Some (_, pw) =>
      let s1 := set_active s (delete k (active_work s)) in
      let s2 := set_written s1 (written s1 ++ [(k, blob_work pw)]) in
      Some (match dict_get (failures s2) pw with
            | Some _ => set_failures s2 (dict_pop (failures s2) pw)
            | None => s2
            end)
    end
  | EFailure wid k n =>
    match active_work s !! k with
    | None => None  (* KeyError *)
    | Some (_, pw) =>
      let s1 := set_active s (delete k (active_work s)) in
      let s2 := set_written s1 (written s1 ++ [(k, take n (blob_work pw))]) in
      handle_failure s2 pw k (drop n (blob_work pw))
    end
  | EFailureNone wid =>
    match find_by_worker (active_work s) wid with
    | None => Some s
    | Some k =>
      match active_work s !! k with
      | None => Some s
      | Some (_, pw) =>
        let s1 := set_active s (delete k (active_work s)) in
        handle_failure s1 pw k (blob_work pw)
      end
    end
  end.

Fixpoint run (s : dstate) (es : list event) : option dstate :=
  match es with
  | [] => Some s
  | e :: r => match step s e with Some s' => run s' r | None => None end
  end.

(** Per-key views of the dispatcher state, for the ordering argument. *)
Fixpoint flat (k : work_key) (l : list (work_key * list work_entry)) : list work_entry :=
  match l with
  | [] => []
  | (k', w) :: r => (if decide (k = k') then w else []) ++ flat k r
  end.

Definition flat_prep (k : work_key) (l : list (work_key * metrics * list work_entry)) : list work_entry :=
  flat k (map (fun '(k', _, w) => (k', w)) l).

Definition act_of (s : dstate) (k : work_key) : list work_entry :=
  match active_work s !! k with Some (_, pw) => blob_work pw | None => [] end.
Definition pend_of (s : dstate) (k : work_key) : list work_entry :=
  match pending_work s !! k with Some (_, w) => w | None => [] end.
Definition stash_of (s : dstate) (k : work_key) : list work_entry :=
  match stashed_work s !! k with Some (_, w) => w | None => [] end.

(** The bookkeeping invariant of the three maps and the work queue. *)
Record inv (s : dstate) : Prop := {
  inv_active : forall k, is_Some (active_work s !! k) -> pending_work s !! k = None;
  inv_queue : forall k, k ∈ work_queue s <-> is_Some (pending_work s !! k);
  inv_nodup : NoDup (work_queue s);
  inv_stash : forall k, is_Some (stashed_work s !! k) -> pending_work s !! k = None;
  inv_packed : forall k wid pw, active_work s !! k = Some (wid, pw) -> exists m w, pw = Enc k m w
}.

(** Every entry submitted for a key is, in submission order, written, active,
    pending or stashed, or still in the prep queue. *)
Definition in_order (s : dstate) : Prop :=
  forall k, flat k (written s) ++ act_of s k ++ pend_of s k ++ stash_of s k
            ++ flat_prep k (prep_queue s) = flat k (submitted s).

Definition no_failure (e : event) : Prop :=
  match e with EFailure _ _ _ | EFailureNone _ => False | _ => True end.

(** Concrete runs: a work item [10] for brick key 7 (metrics 1) served by
    worker 3. *)
Definition retry_then_success : list event :=
  [EPut 7 1 [10]; EOrganize; EProvision 3; EFailure 3 7 0; EOrganize; EProvision 3; ESuccess 3 7].

Definition fail_cycle : list event := [EOrganize; EProvision 3; EFailure 3 7 0].

Definition submit_and_fail (n : nat) : list event :=
  EPut 7 1 [10] :: concat (repeat fail_cycle n).

(** [10] fails before anything is written while [11] is stashed and [12] is
    still in the prep queue; the retry of [10] is put behind [12]. *)
Definition retry_reorders : list event :=
  [EPut 7 1 [10]; EOrganize; EProvision 3; EPut 7 1 [11]; EOrganize; EPut 7 1 [12];
   EFailure 3 7 0; EOrganize; EOrganize; EProvision 3; ESuccess 3 7].

(** [has_pending_work], [has_active_work], [has_stashed_work]: [len(d) > 0]. *)
Definition has_pending_work (s : dstate) : bool := Nat.ltb 0 (size (pending_work s)).
Definition has_active_work (s : dstate) : bool := Nat.ltb 0 (size (active_work s)).
Definition has_stashed_work (s : dstate) : bool := Nat.ltb 0 (size (stashed_work s)).

(** [is_dirty]: the prep queue is not consulted. *)
Definition is_dirty (s : dstate) : bool :=
  if negb (has_active_work s) then
    if negb (has_stashed_work s) then
      if negb (has_pending_work s) then false else true
    else true
  else true.

(** [n] successive [_add_failure(wp)] calls: the failures dict after them and
    whether each call raised. *)
Fixpoint add_failures (f : list (blob * nat)) (wp : blob) (n : nat) : list (blob * nat) * list bool :=
  match n with
  | 0 => (f, [])
  | S n' =>
    let '(f1, r1) := add_failures f wp n' in
    let '(f2, b) := add_failure f1 wp in
    (f2, r1 ++ [b])
  end.

End Dispatch.

(* ===================================================================== *)
(** ** Python values and errors *)
(* ===================================================================== *)

Module Py.

(** The exceptions the modelled code raises. *)
Inductive pyerr :=
| ValueError (msg : string)
| IndexError
| KeyError
| SystemError (msg : string)
| TypeError
| NotModelled.  (* a path outside the modelled domain *)

Inductive res (A : Type) := Ok (a : A) | Err (e : pyerr).
Arguments Ok {A} a.
Arguments Err {A} e.

Definition bind {A B} (m : res A) (f : A -> res B) : res B :=
  match m with Ok a => f a | Err e => Err e end.

Notation "'let*' x ':=' m 'in' k" := (bind m (fun x => k))
  (at level 200, x pattern, m at level 100, k at level 200).

(** [l[i]] on a list, raising [IndexError] out of range (i >= 0). *)
Definition getidx {A} (l : list A) (i : nat) : res A :=
  match nth_error l i with Some a => Ok a | None => Err IndexError end.

(** [slice(start, stop, step).indices(length)], as CPython computes it. *)
Definition slice_indices (start stop step : option Z) (length : Z) : res (Z * Z * Z) :=
  let st := default 1%Z step in
  if Z.eqb st 0 then Err (ValueError "slice step cannot be zero") else
  let lower := if Z.ltb st 0 then (-1)%Z else 0%Z in
  let upper := if Z.ltb st 0 then (length - 1)%Z else length in
  let adjust (v : option Z) (dflt : Z) :=
    match v with
    | None => dflt
    | Some x =>
      if Z.ltb x 0 then Z.max (x + length) lower
      else Z.min x upper
    end in
  Ok (adjust start (if Z.ltb st 0 then upper else lower),
      adjust stop (if Z.ltb st 0 then lower else upper), st).

(** [len(range(a, b, k))] for [k <> 0]. *)
Definition range_len (a b k : Z) : Z :=
  if Z.ltb 0 k then (if Z.ltb a b then (b - a - 1) / k + 1 else 0)
  else (if Z.ltb b a then (a - b - 1) / (- k) + 1 else 0).

(** [range(a, b, k)] as a list, for [k <> 0]. *)
Definition range_list (a b k : Z) : list Z :=
  map (fun i => a + k * Z.of_nat i)%Z (seq 0 (Z.to_nat (range_len a b k))).

(** [len(range( *s.indices(n)))]. *)
Definition slice_len (start stop step : option Z) (n : Z) : res Z :=
  let* (a, b, k) := slice_indices start stop step n in Ok (range_len a b k).

End Py.

(* ===================================================================== *)
(** ** Persisted storage and persistence layer ([persistence.py]) *)
(* ===================================================================== *)

Module Persist.
Import Py.

(** One axis of a selection: an [int], a list of indices, or a [slice]. *)
Inductive axis_sel :=
| SInt (i : Z)
| SList (l : list Z)
| SSlice (start stop step : option Z).

(** The brick_list entry [[brick_extents, origin, tuple(bD), brick_active_size]]. *)
Record brick_entry := {
  be_extents : list (Z * Z);
  be_origin : list Z;
  be_size : list Z;
  be_active : list Z
}.

Definition guid := nat.

(** Lookup in a dict keyed by guids. *)
Fixpoint dget {A} (d : list (guid * A)) (g : guid) : res A :=
  match d with
  | [] => Err KeyError
  | (g', a) :: r => if Nat.eqb g g' then Ok a else dget r g
  end.

(** Per-axis outputs of [_calc_slices]. *)
Inductive brick_sel := BInt (i : Z) | BList (l : list Z) | BSlice (start stop : Z) (step : option Z).
Inductive value_sel := VInt (i : Z) | VSlice (start stop : Z).

(** [_calc_slices] for one axis [sl] at cursor [vo]; [vs] is the extent of the
    value array on this axis.  Returns the brick and value selections and the
    advanced cursor. *)
Definition calc_axis (sl : axis_sel) (bo bs vo : Z) (vs : option Z)
  : res (brick_sel * value_sel * Z) :=
  let bn := (bo + bs)%Z in
  match sl with
  | SInt i =>
    if Z.leb bo i && Z.ltb i bn then Ok (BInt (i - bo), VInt vo, vo + 1)%Z
    else Err (ValueError "Specified index is not within the brick")
  | SList l =>
    let lb := map (fun x => x - bo)%Z (filter (fun x => Z.leb bo x && Z.ltb x bn) l) in
    match lb with
    | [] => Err (ValueError "None of the specified indices are within the brick")
    | _ => Ok (BList lb, VSlice vo (vo + Z.of_nat (length lb)), vo + Z.of_nat (length lb))%Z
    end
  | SSlice a b k =>
    let* start :=
      match a with
      | None => Ok 0%Z
      | Some a =>
        if Z.leb bo a && Z.ltb a bn then Ok (a - bo)%Z
        else if Z.ltb a bo then Ok 0%Z
        else Err (ValueError "The slice is not contained in this brick (sl.start > bn)")
      end in
    let* stop :=
      match b with
      | None => Ok bs
      | Some b =>
        if Z.leb bo b && Z.ltb b bn then Ok (b - bo)%Z
        else if Z.ltb bn b then Ok bs
        else Err (ValueError "The slice is not contained in this brick (bo > sl.stop)")
      end in
    let* nbsl := slice_len (Some start) (Some stop) k stop in
    let vstp := (vo + nbsl)%Z in
    let vstp := match vs with Some v => if Z.ltb v vstp then v else vstp | None => vstp end in
    Ok (BSlice start stop k, VSlice vo vstp, vo + nbsl)%Z
  end.

(** [_calc_slices(slice_, brick_guid, value, val_origin)]: [val_shp] is the
    shape of [value].  The cursor [val_origin] is a list the caller keeps and
    the function updates in place; here it is returned.  [None] as value
    slice stands for an empty [val_origin]. *)
Definition calc_slices (blist : list (guid * brick_entry)) (slice_ : list axis_sel)
  (g : guid) (val_shp : list Z) (val_origin : list Z)
  : res (list brick_sel * option (list value_sel) * list Z) :=
  let* e := dget blist g in
  let brick_origin := be_origin e in
  let brick_size := be_active e in
  let val_ori := match val_origin with [] => repeat 0%Z (length slice_) | _ => val_origin end in
  let fix go (i : nat) (sls : list axis_sel) (ori : list Z) :=
    match sls with
    | [] => Ok ([], [], ori)
    | sl :: rest =>
      let* bo := getidx brick_origin i in
      let* bs := getidx brick_size i in
      let* vo := getidx ori i in
      let* vs := match val_shp with [] => Ok None | _ => let* v := getidx val_shp i in Ok (Some v) end in
      let* (bsel, vsel, vo') := calc_axis sl bo bs vo vs in
      let* (bsl, vsl, ori') := go (S i) rest (<[i := vo']> ori) in
      Ok (bsel :: bsl, vsel :: vsl, ori')
    end in
  let* (bsl, vsl, ori') := go 0 slice_ val_ori in
  match val_origin with
  | [] => Ok (bsl, None, val_origin)
  | _ => Ok (bsl, Some vsl, ori')
  end.

(** The R-tree: its dimension and its entries [(id, coordinates, guid)] in
    insertion order, coordinates interleaved as [mins ++ maxs].  Intersection
    results are returned in insertion order. *)
Record rtree := { rt_dim : nat; rt_entries : list (nat * list Z * guid) }.

Definition zmin (l : list Z) : res Z :=
  match l with [] => Err (ValueError "min() arg is an empty sequence") | x :: r => Ok (fold_left Z.min r x) end.
Definition zmax (l : list Z) : res Z :=
  match l with [] => Err (ValueError "max() arg is an empty sequence") | x :: r => Ok (fold_left Z.max r x) end.

(** [brick_tree.bounds]: per-axis minima then maxima over all entries (an
    empty tree has no bounds here). *)
Definition tree_bounds (t : rtree) : list Z :=
  match rt_entries t with
  | [] => []
  | (_, c, _) :: r =>
    let d := rt_dim t in
    map (fun i => fold_left (fun acc '(_, c', _) => Z.min acc (nth i c' 0%Z)) r (nth i c 0%Z)) (seq 0 d)
    ++ map (fun i => fold_left (fun acc '(_, c', _) => Z.max acc (nth (d + i) c' 0%Z)) r (nth (d + i) c 0%Z)) (seq 0 d)
  end.

Definition intersects (d : nat) (q c : list Z) : bool :=
  forallb (fun i => Z.leb (nth i c 0) (nth (d + i) q 0) && Z.leb (nth i q 0) (nth (d + i) c 0))%Z (seq 0 d).

Definition intersection (t : rtree) (q : list Z) : list (nat * guid) :=
  map (fun '(i, _, g) => (i, g)) (filter (fun '(_, c, _) => intersects (rt_dim t) q c) (rt_entries t)).

(** [PersistedStorage._bricks_from_slice] for a selection given as a tuple. *)
Definition bricks_from_slice (t : rtree) (slice_ : list axis_sel) : res (list (nat * guid)) :=
  let '(rank, sl) := if Nat.eqb (length slice_) 1 then (2%nat, slice_ ++ [SInt 0]) else (length slice_, slice_) in
  if negb (Nat.eqb (rt_dim t) rank) then Err (ValueError "slice_ is of incorrect rank") else
  let bnds := tree_bounds t in
  let fix go (x : nat) (sls : list axis_sel) : res (list Z * list Z) :=
    match sls with
    | [] => Ok ([], [])
    | sx :: rest =>
      let* (si, ei) :=
        match sx with
        | SSlice a b _ =>
          let* si := match a with Some a => Ok a | None => getidx bnds x end in
          let* ei := match b with Some b => Ok b | None => getidx bnds (x + rank) end in
          Ok (si, ei)
        | SList l => let* lo := zmin l in let* hi := zmax l in Ok (lo, hi)
        | SInt i => Ok (i, i)
        end in
      let* (st, en) := go (S x) rest in
      Ok (si :: st, ei :: en)
    end in
  let* (start, end_) := go 0 sl in
  Ok (intersection t (start ++ end_)).

(** [PersistedStorage._get_array_shape_from_slice]. *)
Definition shape_from_slice (t : rtree) (slice_ : list axis_sel) : res (list Z) :=
  let maxes := map (fun x => x + 1)%Z (drop (rt_dim t) (tree_bounds t)) in
  let fix go (i : nat) (sls : list axis_sel) : res (list Z) :=
    match sls with
    | [] => Ok []
    | s :: rest =>
      let* n :=
        match s with
        | SInt _ => Ok 1%Z
        | SList l => Ok (Z.of_nat (length l))
        | SSlice a b k => let* m := getidx maxes i in slice_len a b k m
        end in
      let* r := go (S i) rest in Ok (n :: r)
    end in
  go 0 slice_.

(** What [dataset.__getitem__] returns: a scalar or a 1-d array. *)
Inductive readv := RScalar (z : Z) | RArr (l : list Z).

(** Reading a 1-d HDF5 dataset [ds] (its values) at a brick selection. *)
Definition read_ds (ds : list Z) (b : brick_sel) : res readv :=
  match b with
  | BInt i => match nth_error ds (Z.to_nat i) with
              | Some v => if Z.leb 0 i then Ok (RScalar v) else Err IndexError
              | None => Err IndexError end
  | BList l =>
    if forallb (fun '(x, y) => Z.ltb x y) (combine l (tail l))
    then Ok (RArr (map (fun i => nth (Z.to_nat i) ds 0%Z) l))
    else Err TypeError
  | BSlice a c k =>
    if Z.ltb (default 1%Z k) 1 then Err (ValueError "Step must be >= 1") else
    let* (a', c', k') := slice_indices (Some a) (Some c) k (Z.of_nat (length ds)) in
    Ok (RArr (map (fun i => nth (Z.to_nat i) ds 0%Z) (range_list a' c' k')))
  end.

(** [ret_arr[value_slice] = v] on a 1-d array. *)
Definition assign (ret : list Z) (vsel : value_sel) (v : readv) : res (list Z) :=
  let n := Z.of_nat (length ret) in
  match vsel with
  | VInt i =>
    if negb (Z.leb 0 i && Z.ltb i n) then Err IndexError else
    match v with
    | RScalar z | RArr [z] => Ok (<[Z.to_nat i := z]> ret)
    | RArr _ => Err (ValueError "shape mismatch")
    end
  | VSlice a b =>
    let* (a', b', k') := slice_indices (Some a) (Some b) None n in
    let idx := range_list a' b' k' in
    let vals :=
      match v with
      | RScalar z | RArr [z] => Ok (repeat z (length idx))
      | RArr l => if Nat.eqb (length l) (length idx) then Ok l else Err (ValueError "shape mismatch")
      end in
    let* vals := vals in
    Ok (fold_left (fun r '(i, z) => <[Z.to_nat i := z]> r) (combine idx vals) ret)
  end.

(** The read path of one parameter's storage. *)
Record storage := { st_tree : rtree; st_bricks : list (guid * brick_entry); st_files : list (guid * list Z) }.

(** [PersistedStorage.__getitem__] for a selection given as a tuple.  The
    assembly of the result is modelled for 1-d results, the only ones a
    rank-1 parameter produces without raising. *)
Definition getitem (ps : storage) (slice_ : list axis_sel) : res (list Z * list Z) :=
  let* arr_shp := shape_from_slice (st_tree ps) slice_ in
  let ret_arr := repeat (-1)%Z (Z.to_nat (foldr Z.mul 1%Z arr_shp)) in
  let ret_origin := repeat 0%Z (length arr_shp) in
  let* bricks := bricks_from_slice (st_tree ps) slice_ in
  let fix go (bs : list (nat * guid)) (ret : list Z) (ori : list Z) : res (list Z) :=
    match bs with
    | [] => Ok ret
    | (_, g) :: rest =>
      let* ds := dget (st_files ps) g in
      let* (bsl, vsl, ori') := calc_slices (st_bricks ps) slice_ g arr_shp ori in
      let* (b, v) := match bsl, vsl with
                     | [b], Some [v] => Ok (b, v)
                     | _, _ => Err NotModelled
                     end in
      let* data := read_ds ds b in
      let* ret' := assign ret v data in
      go rest ret' ori'
    end in
  let* data := go bricks ret_arr ret_origin in
  Ok (arr_shp, data).

(** The persistence layer's state for one parameter: the layer's spatial
    domain, [parameter_domain_dict[name]] ([None] for [[None, None, None]]),
    [brick_list[name]], the parameter's R-tree, its brick files (each holding
    one dataset, as its values in row-major order) and the supply of fresh
    brick guids ([create_guid]). *)
Record layer := {
  ly_sdom : option (list Z);
  ly_pdd : option (list Z * list Z * list Z);
  ly_blist : list (guid * brick_entry);
  ly_tree : rtree;
  ly_files : list (guid * list Z);
  ly_next : guid
}.

(** [calculate_brick_size]: hard-coded temporal brick extent 6 and chunk 2. *)
Definition calculate_brick_size (sdom : option (list Z)) : list Z * list Z :=
  match sdom with
  | None => ([6%Z], [2%Z])
  | Some sd => (6%Z :: sd, 2%Z :: sd)
  end.

(** Python 2 [map(f, xs, ys)] on lists of equal length ([None] padding of the
    shorter list makes [f] raise [TypeError] here). *)
Fixpoint map2 (f : Z -> Z -> Z) (xs ys : list Z) : res (list Z) :=
  match xs, ys with
  | [], [] => Ok []
  | x :: xr, y :: yr => let* r := map2 f xr yr in Ok (f x y :: r)
  | _, _ => Err TypeError
  end.

(** [calculate_extents(origin, bD, name)] with [total] the parameter's
    current [total_extents]: the R-tree coordinates, the brick extents and
    the 1-tuple brick active size. *)
Definition calculate_extents (origin bD total : list Z) : res (list Z * list (Z * Z) * list Z) :=
  let* ends := map2 (fun o s => o + s - 1)%Z origin bD in
  let rtree_extents := origin ++ ends in
  let rtree_extents :=
    if Nat.eqb (length origin) 1 then flat_map (fun e => [e; 0%Z]) rtree_extents else rtree_extents in
  let brick_extents := combine origin ends in
  let* active :=
    match total, brick_extents with
    | t :: _, (o, e) :: _ => Ok [(Z.min t (e + 1) - o)%Z]
    | _ :: _, [] => Err TypeError
    | [], _ => Err IndexError
    end in
  Ok (rtree_extents, brick_extents, active).

(** [write_brick(origin, bD, cD, name, dtype)]: the dataset is created
    without a fill value, so HDF5 fills it with 0. *)
Definition write_brick (l : layer) (origin bD total : list Z) : res layer :=
  let* (rt, be, act) := calculate_extents origin bD total in
  if existsb (fun '(_, e) => bool_decide (be_extents e = be)) (ly_blist l) then Ok l else
  let g := ly_next l in
  let blist' := ly_blist l ++ [(g, {| be_extents := be; be_origin := origin; be_size := bD; be_active := act |})] in
  let count := length blist' in
  Ok {| ly_sdom := ly_sdom l; ly_pdd := ly_pdd l; ly_blist := blist';
        ly_tree := {| rt_dim := rt_dim (ly_tree l);
                      rt_entries := rt_entries (ly_tree l) ++ [(count - 1, rt, g)]%nat |};
        ly_files := ly_files l ++ [(g, repeat 0%Z (Z.to_nat (foldr Z.mul 1%Z bD)))];
        ly_next := S g |}.

(** [range(d)[::b]]. *)
Definition range_step (d b : Z) : res (list Z) :=
  let* (a, c, k) := slice_indices None None (Some b) (Z.max d 0) in Ok (range_list a c k).

(** [[range(d)[::bD[i]] for i,d in enumerate(tD)]]. *)
Fixpoint grid_axes (bD : list Z) (ds : list Z) (i : nat) : res (list (list Z)) :=
  match ds with
  | [] => Ok []
  | d :: r =>
    let* b := getidx bD i in
    let* ax := range_step d b in
    let* rest := grid_axes bD r (S i) in
    Ok (ax :: rest)
  end.

(** [itertools.product]. *)
Fixpoint product (ls : list (list Z)) : list (list Z) :=
  match ls with
  | [] => [[]]
  | l :: r => flat_map (fun x => map (cons x) (product r)) l
  end.

Fixpoint write_all (l : layer) (vs : list (list Z)) (bD total : list Z) : res layer :=
  match vs with
  | [] => Ok l
  | v :: r => let* l' := write_brick l v bD total in write_all l' r bD total
  end.

Definition set_pdd (l : layer) p :=
  {| ly_sdom := ly_sdom l; ly_pdd := p; ly_blist := ly_blist l; ly_tree := ly_tree l;
     ly_files := ly_files l; ly_next := ly_next l |}.

(** [expand_domain(parameter_context)] with [total] the context's
    [dom.total_extents]. *)
Definition expand_domain (l : layer) (total : list Z) : res layer :=
  let* (l1, tD, bD) :=
    match ly_pdd l with
    | Some (tD0, bD, cD) =>
      if negb (Nat.eqb (length total) (length tD0))
      then Err (SystemError "Number of dimensions for parameter cannot change, only expand in size! No action performed.")
      else
        let* delta := map2 (fun x y => x - y)%Z total tD0 in
        let* tD := map2 (fun x y => x + y)%Z tD0 delta in
        Ok (set_pdd l (Some (tD, bD, cD)), tD, bD)
    | None =>
      let '(bD, cD) := calculate_brick_size (ly_sdom l) in
      Ok (set_pdd l (Some (total, bD, cD)), total, bD)
    end in
  let* lst := grid_axes bD tD 0 in
  let vertices := product lst in
  match vertices with
  | [] => Ok l1
  | _ => write_all l1 vertices bD total
  end.

(** [init_parameter(parameter_context)] on a fresh layer. *)
Definition init_parameter (sdom : option (list Z)) (total : list Z) : res layer :=
  let '(bD, _) := calculate_brick_size sdom in
  let tree_rank := if Nat.eqb (length bD) 1 then 2%nat else length bD in
  expand_domain {| ly_sdom := sdom; ly_pdd := None; ly_blist := [];
                   ly_tree := {| rt_dim := tree_rank; rt_entries := [] |};
                   ly_files := []; ly_next := 0%nat |} total.

(** The [PersistedStorage] the layer hands out for the parameter. *)
Definition storage_of (l : layer) : storage :=
  {| st_tree := ly_tree l; st_bricks := ly_blist l; st_files := ly_files l |}.

(** The brick extents of the brick at [origin], as [calculate_extents]
    computes them, and the presence of a brick with given extents. *)
Definition brick_ends (origin bD : list Z) : list Z := zip_with (fun o s => o + s - 1)%Z origin bD.

Definition has_brick (l : layer) (extents : list (Z * Z)) : Prop :=
  exists g e, In (g, e) (ly_blist l) /\ be_extents e = extents.

(** [PersistenceLayer.list_bricks(name, start, end)] and
    [PersistedStorage.list_bricks(start, end)]: the R-tree hits. *)
Definition list_bricks (t : rtree) (start end_ : list Z) : list (nat * guid) :=
  intersection t (start ++ end_).

(** The consistency of a parameter's brick list, R-tree and brick files:
    brick extents and guids are distinct, guids are below the next fresh one,
    the R-tree entry with id [i] names the [i]-th brick of the list, and the
    files hold one dataset per brick, in the same order. *)
Definition layer_ok (l : layer) : Prop :=
  NoDup (map (fun p => be_extents p.2) (ly_blist l)) /\
  NoDup (map fst (ly_blist l)) /\
  List.Forall (fun p => (p.1 < ly_next l)%nat) (ly_blist l) /\
  map (fun '(i, _, g) => (i, g)) (rt_entries (ly_tree l)) = imap (fun i p => (i, p.1)) (ly_blist l) /\
  map fst (ly_files l) = map fst (ly_blist l).

(** A fresh layer, and the layer of a successful result. *)
Definition fresh_layer : layer :=
  {| ly_sdom := None; ly_pdd := None; ly_blist := [];
     ly_tree := {| rt_dim := 2; rt_entries := [] |}; ly_files := []; ly_next := 0%nat |}.

Definition layer_of (r : res layer) : layer :=
  match r with Ok l => l | Err _ => fresh_layer end.

End Persist.

(* ===================================================================== *)
(** ** QC functions ([ion_functions/qc_functions.py]) *)
(* ===================================================================== *)

Module QC.
Import Py.

(** A numpy array: the kind of its dtype, its shape and its elements in
    row-major order.  Floating-point values are modelled by exact rationals. *)
Record ndarray := { nd_kind : ascii; nd_shape : list nat; nd_data : list Q }.

Definition nd_size (a : ndarray) : nat := foldr Nat.mul 1%nat (nd_shape a).

Definition NUMERIC_KINDS : list ascii := ["i"; "u"; "f"; "c"]%char.
Definition REAL_KINDS : list ascii := ["i"; "u"; "f"; "S"; "a"; "U"]%char.

Definition kind_in (k : ascii) (ks : list ascii) : bool := existsb (Ascii.eqb k) ks.

(** [np.nditer(np.asanyarray(dat))]: the kinds of the 0-d arrays it yields.
    Without the [zerosize_ok] flag numpy refuses a zero-size operand. *)
Definition nditer (a : ndarray) : res (list ascii) :=
  if Nat.eqb (nd_size a) 0 then Err (ValueError "Iteration of zero-sized operands is not enabled")
  else Ok (repeat (nd_kind a) (nd_size a)).

Definition isnumeric (a : ndarray) : res (list bool) :=
  let* ks := nditer a in Ok (map (fun k => kind_in k NUMERIC_KINDS) ks).

Definition isreal (a : ndarray) : res (list bool) :=
  let* ks := nditer a in Ok (map (fun k => kind_in k REAL_KINDS) ks).

Definition isscalar (a : ndarray) : bool := Nat.eqb (nd_size a) 1.
Definition isvector (a : ndarray) : bool := Nat.ltb 1 (nd_size a).

(** [.all()] *)
Definition all_ (l : list bool) : bool := forallb (fun b => b) l.

Definition quoted (name suffix : string) : string :=
  String.append "'" (String.append name (String.append "' " suffix)).

(** The checks on the data argument: numeric, vector, real, in this order. *)
Definition check_dat (name : string) (a : ndarray) : res unit :=
  let* n := isnumeric a in
  if negb (all_ n) then Err (ValueError (quoted name "must be numeric")) else
  if negb (isvector a) then Err (ValueError (quoted name "must be a vector")) else
  let* r := isreal a in
  if negb (all_ r) then Err (ValueError (quoted name "must be real")) else Ok tt.

(** The checks on a scalar argument: numeric, scalar, real. *)
Definition check_arg (name : string) (a : ndarray) : res unit :=
  let* n := isnumeric a in
  if negb (all_ n) then Err (ValueError (quoted name "must be numeric")) else
  if negb (isscalar a) then Err (ValueError (quoted name "must be a scalar")) else
  let* r := isreal a in
  if negb (all_ r) then Err (ValueError (quoted name "must be real")) else Ok tt.

(** The loop over a dict literal of arguments; the list gives its iteration
    order (which only matters when two arguments are invalid). *)
Fixpoint check_args (l : list (string * ndarray)) : res unit :=
  match l with
  | [] => Ok tt
  | (k, a) :: r => let* _ := check_arg k a in check_args r
  end.

Definition nd_val (a : ndarray) : Q := nth 0 (nd_data a) 0%Q.

(** [len(dat_arr)] *)
Definition nd_len (a : ndarray) : res nat :=
  match nd_shape a with
  | d :: _ => Ok d
  | [] => Err TypeError
  end.

(** [l[a:b]] *)
Definition pyslice (l : list Q) (a b : Z) : list Q :=
  match slice_indices (Some a) (Some b) None (Z.of_nat (length l)) with
  | Ok (s, e, _) => firstn (Z.to_nat (e - s)) (skipn (Z.to_nat s) l)
  | Err _ => []
  end.

(** [l[i]] for [0 <= i < len(l)] *)
Definition qidx (l : list Q) (i : Z) : res Q :=
  getidx l (Z.to_nat i).

Definition qmax (l : list Q) : res Q :=
  match l with
  | [] => Err (ValueError "zero-size array to reduction operation maximum which has no identity")
  | x :: r => Ok (fold_left Qmax r x)
  end.

Definition qmin (l : list Q) : res Q :=
  match l with
  | [] => Err (ValueError "zero-size array to reduction operation minimum which has no identity")
  | x :: r => Ok (fold_left Qmin r x)
  end.

Definition qmean (l : list Q) : Q := (fold_right Qplus 0 l / inject_Z (Z.of_nat (length l)))%Q.

(** [np.round]: round half to even. *)
Definition round_half_even (q : Q) : Z :=
  let f := Qfloor q in
  let d := (q - inject_Z f)%Q in
  if Qlt_le_dec d (1 # 2) then f
  else if Qeq_bool d (1 # 2) then (if Z.even f then f else f + 1)%Z
  else (f + 1)%Z.

(** [int(q)]: truncation towards zero. *)
Definition py_int (q : Q) : Z := if Qle_bool 0 q then Qfloor q else Qceiling q.

(** The window length after normalisation, an integral value:
    [L = np.ceil(np.abs(L))], made odd when even, and 5 when below 3. *)
Definition normalise_L (L : Q) : Q :=
  let L := inject_Z (Qceiling (Qabs L)) in
  let L := if Qeq_bool (L / 2) (inject_Z (round_half_even (L / 2))) then (L + 1)%Q else L in
  if Qlt_le_dec L 3 then 5%Q else L.

(** One iteration of a test loop: [R = max(max(tmp) - min(tmp), acc)] and the
    flag [out[ii] = 1] when [N*R > |dat[ii] - mean(tmp)|]. *)
Definition spike_step (dat : list Q) (acc N : Q) (tmp : Z -> list Q)
  (out : list Z) (ii : Z) : res (list Z) :=
  let tmpdat := tmp ii in
  let* mx := qmax tmpdat in
  let* mn := qmin tmpdat in
  let R := Qmax (mx - mn) acc in
  let* x := qidx dat ii in
  if Qlt_le_dec (Qabs (x - qmean tmpdat)) (N * R) then Ok (<[Z.to_nat ii := 1%Z]> out) else Ok out.

Fixpoint spike_loop (dat : list Q) (acc N : Q) (tmp : Z -> list Q) (out : list Z) (iis : list Z)
  : res (list Z) :=
  match iis with
  | [] => Ok out
  | ii :: r => let* out := spike_step dat acc N tmp out ii in spike_loop dat acc N tmp out r
  end.

(** [dataqc_spiketest(dat, acc, N=5, L=5)]; the loops are modelled for a 1-d
    [dat] ([NotModelled] for a longer multi-dimensional one). *)
Definition dataqc_spiketest (dat acc N L : ndarray) : res (list Z) :=
  let* _ := check_dat "dat" dat in
  let* _ := check_args [("acc", acc); ("N", N); ("L", L)] in
  let accv := nd_val acc in
  let Nv := nd_val N in
  let Lq := normalise_L (nd_val L) in
  let Lz := Qfloor Lq in
  let* ll := nd_len dat in
  let ll := Z.of_nat ll in
  let out := repeat 0%Z (nd_size dat) in
  let L2 := py_int ((Lq - 1) / 2) in
  let i1 := (1 + L2)%Z in
  let i2 := (ll - L2)%Z in
  if Qle_bool Lq (inject_Z ll) then
    match nd_shape dat with
    | [_] =>
      let d := nd_data dat in
      let* out := spike_loop d accv Nv
                    (fun ii => pyslice d (ii - L2) ii ++ pyslice d (ii + 1) (ii + 1 + L2))
                    out (range_list (i1 - 1) i2 1) in
      let* out := spike_loop d accv Nv
                    (fun ii => pyslice d 0 ii ++ pyslice d (ii + 1) Lz)
                    out (range_list 0 L2 1) in
      spike_loop d accv Nv
        (fun ii => pyslice d 0 ii ++ pyslice d ii Lz)
        out (range_list (ll - L2) ll 1)
    | _ => Err NotModelled
    end
  else Ok out.

(** [dat_arr[j]] of a row-major array whose rows have [r] elements. *)
Definition nd_row (x : list Q) (r : nat) (j : Z) : list Q := firstn r (skipn (Z.to_nat j * r) x).

(** The stuck-value loop over [ii] in [xrange(iimax)]: [dat_arr[ii]] raises
    [IndexError] from [ii = len(x)] on; otherwise [out[ii:ii+num] = 0] (on
    the flat [out]) when
    [(np.abs(dat_arr[ii] - dat_arr[ii:ii+num]) < reso).all()], the rows
    having [r] elements.  The differences are exact rationals. *)
Fixpoint stuck_loop (x : list Q) (ll : Z) (r : nat) (reso : Q) (num : Z) (out : list Z) (iis : list Z)
  : res (list Z) :=
  match iis with
  | [] => Ok out
  | ii :: rest =>
    if Z.leb ll ii then Err IndexError else
    let xi := nd_row x r ii in
    let w := map (nd_row x r) (range_list ii (Z.min (ii + num) ll) 1) in
    let out :=
      if forallb (fun xj => forallb (fun '(a, b) => Qle_bool (Qabs (a - b)) reso && negb (Qeq_bool (Qabs (a - b)) reso))
                              (combine xi xj)) w
      then foldr (fun j o => <[Z.to_nat j := 0%Z]> o) out (range_list ii (Z.min (ii + num) (Z.of_nat (length out))) 1)
      else out in
    stuck_loop x ll r reso num out rest
  end.

(** [dataqc_stuckvaluetest(x, reso, num=10)].  [iimax = ll - num + 1] is
    an integer for a signed-integer [num] and a float for a float [num], on
    which [xrange] raises [TypeError]; an unsigned [num] (whose promotion
    with [ll] depends on its width) and a [num] given as a one-element
    array are [NotModelled]. *)
Definition dataqc_stuckvaluetest (x reso num : ndarray) : res (list Z) :=
  let* _ := check_dat "x" x in
  let* _ := check_args [("reso", reso); ("num", num)] in
  let numv := Qabs (nd_val num) in
  let* ll := nd_len x in
  let out := repeat 0%Z (nd_size x) in
  if Qlt_le_dec (inject_Z (Z.of_nat ll)) numv then Ok out else
  match nd_shape num with
  | [] =>
    if Ascii.eqb (nd_kind num) "i" then
      let n := Qfloor numv in
      stuck_loop (nd_data x) (Z.of_nat ll) (foldr Nat.mul 1%nat (tail (nd_shape x))) (nd_val reso) n
        (repeat 1%Z (nd_size x)) (range_list 0 (Z.of_nat ll - n + 1) 1)
    else if Ascii.eqb (nd_kind num) "f" then Err TypeError
    else Err NotModelled
  | _ => Err NotModelled
  end.

(** A QC flag: [0] or [1]. *)
Definition flag (z : Z) : Prop := z = 0%Z \/ z = 1%Z.

End QC.

(* ===================================================================== *)
(** ** Expression evaluation ([parameter_functions.py]) *)
(* ===================================================================== *)

Module Funcs.

Section Evaluate.

(** [V]: the values the parameter-value callback and the functions return;
    [Sel]: the selections, with [minus_one] the index [-1]. *)
Context {V Sel : Type} (minus_one : Sel).

(** What a [PythonFunction]'s callable receives for one argument. *)
Inductive pyval :=
| PVal (v : V)
| PNum (z : Z)
| PNums (l : list Z)
| PCallback (f : string -> V).  (* [lambda arg: pval_callback(arg, slice_)] *)

(** What a [NumexprFunction] puts into [local_dict]. *)
Inductive nval :=
| NVal (v : V)
| NNum (z : Z)
| NNums (l : list Z).

(** A function and the values of its [param_map] (a dict, as an association
    list with distinct keys): a nested function, a number, a list of numbers
    or the name of a parameter.  The callable of a [PythonFunction] and the
    expression of a [NumexprFunction] are given by their meaning; the
    [kwarg_map] of a [PythonFunction] is only compared with [None]. *)
Inductive func :=
| PythonFunction (name : string) (arg_list : list string) (param_map : option (list (string * arg)))
    (kwarg_map : option (list (string * string))) (callable : list pyval -> V)
| NumexprFunction (name : string) (arg_list : list string) (param_map : option (list (string * arg)))
    (expression : gmap string nval -> V)
with arg :=
| AFun (f : func)
| ANum (z : Z)
| ANums (l : list Z)
| AName (s : string).

(** An argument after the nested functions of the map have been evaluated;
    [EVal None]: the nested function raised. *)
Inductive earg :=
| EVal (v : option V)
| ENum (z : Z)
| ENums (l : list Z)
| EName (s : string).

Definition ends_with_star (k : string) : bool :=
  match String.get (String.length k - 1) k with
  | Some "*"%char => true
  | _ => false
  end.

(** [k[:-1]] *)
Definition strip_last (k : string) : string := String.substring 0 (String.length k - 1) k.

Fixpoint assoc {A} (k : string) (l : list (string * A)) : option A :=
  match l with
  | [] => None
  | (k', a) :: r => if String.eqb k k' then Some a else assoc k r
  end.

(** [_apply_mapping()[k]]: the mapped value of [k], or [k] itself. *)
Definition arg_of (pm : option (list (string * earg))) (k : string) : earg :=
  match pm with
  | None => EName k
  | Some m => match assoc k m with Some a => a | None => EName k end
  end.

(** The loop of [PythonFunction.evaluate] for one argument; [None]: the
    nested function raised. *)
Definition py_bind (pv : string -> Sel -> V) (slice_ : Sel) (k : string) (a : earg) : option pyval :=
  match a with
  | EVal r => option_map PVal r
  | ENum z => Some (PNum z)
  | ENums l => Some (PNums l)
  | EName a =>
    if String.eqb k "pv_callback" then Some (PCallback (fun x => pv x slice_))
    else let sl := if ends_with_star k then minus_one else slice_ in Some (PVal (pv a sl))
  end.

(** The list [args] of [PythonFunction.evaluate]; the loop stops at the
    first argument that raises. *)
Fixpoint python_args (pv : string -> Sel -> V) (slice_ : Sel)
  (pm : option (list (string * earg))) (args : list string) : option (list pyval) :=
  match args with
  | [] => Some []
  | k :: r =>
    match py_bind pv slice_ k (arg_of pm k) with
    | None => None
    | Some p => option_map (cons p) (python_args pv slice_ pm r)
    end
  end.

(** The loop of [NumexprFunction.evaluate], building [ld]. *)
Fixpoint ne_locals (pv : string -> Sel -> V) (slice_ : Sel)
  (pm : option (list (string * earg))) (ld : gmap string nval) (args : list string)
  : option (gmap string nval) :=
  match args with
  | [] => Some ld
  | k :: r =>
    let ld :=
      match arg_of pm k with
      | EVal (Some v) => Some (<[k := NVal v]> ld)
      | EVal None => None
      | ENum z => Some (<[k := NNum z]> ld)
      | ENums l => Some (<[k := NNums l]> ld)
      | EName a =>
        if ends_with_star k then Some (<[strip_last k := NVal (pv a minus_one)]> ld)
        else Some (<[k := NVal (pv a slice_)]> ld)
      end in
    match ld with
    | None => None
    | Some ld => ne_locals pv slice_ pm ld r
    end
  end.

(** [evaluate(pval_callback, slice_, fill_value)] of both classes; [None]:
    it raises (a nested function raised, or a [PythonFunction] has a
    [kwarg_map]: NotImplementedError).  The nested functions of the map are
    evaluated with the same callback and selection; the results are pure
    and only those of the arguments in [arg_list] are used, so evaluating
    them before the loop gives what the loop computes. *)
Fixpoint evaluate (pv : string -> Sel -> V) (slice_ : Sel) (f : func) : option V :=
  let fix emap (m : list (string * arg)) : list (string * earg) :=
    match m with
    | [] => []
    | (k, a) :: r =>
      let e := match a with
               | AFun g => EVal (evaluate pv slice_ g)
               | ANum z => ENum z
               | ANums l => ENums l
               | AName s => EName s
               end in
      (k, e) :: emap r
    end in
  match f with
  | PythonFunction _ args pm kwarg_map callable =>
    match python_args pv slice_ (option_map emap pm) args with
    | None => None
    | Some vals =>
      match kwarg_map with
      | None => Some (callable vals)
      | Some _ => None  (* NotImplementedError *)
      end
    end
  | NumexprFunction _ args pm expression =>
    option_map expression (ne_locals pv slice_ (option_map emap pm) ∅ args)
  end.

(** One value of the map, with its nested function evaluated. *)
Definition eval_arg (pv : string -> Sel -> V) (slice_ : Sel) (a : arg) : earg :=
  match a with
  | AFun g => EVal (evaluate pv slice_ g)
  | ANum z => ENum z
  | ANums l => ENums l
  | AName s => EName s
  end.

(** [_apply_mapping()[k]] on the unevaluated map. *)
Definition map_arg (pm : option (list (string * arg))) (k : string) : arg :=
  match pm with
  | None => AName k
  | Some m => match assoc k m with Some a => a | None => AName k end
  end.

(** The key under which [NumexprFunction.evaluate] stores argument [k]:
    [k[:-1]] for a parameter name bound to a starred argument, else [k]. *)
Definition ld_key (pm : option (list (string * arg))) (k : string) : string :=
  match map_arg pm k with
  | AName _ => if ends_with_star k then strip_last k else k
  | _ => k
  end.

End Evaluate.

(** Map names: [AbstractFunction._get_map_name] and [_parse_map_name], on
    strings as lists of characters. *)
Definition map_sep : list ascii := [":"; "|"; ":"]%char.

(** [s.startswith(p)] *)
Fixpoint is_prefix (p s : list ascii) : bool :=
  match p, s with
  | [], _ => true
  | c :: p', d :: s' => Ascii.eqb c d && is_prefix p' s'
  | _ :: _, [] => false
  end.

(** [s.split(sep)] for a non-empty [sep]: occurrences of [sep] are taken
    left to right without overlap; [skip] counts the characters of the last
    occurrence still to pass and [cur] is the piece being built. *)
Fixpoint split_go (sep s : list ascii) (skip : nat) (cur : list ascii) : list (list ascii) :=
  match s with
  | [] => [cur]
  | c :: r =>
    match skip with
    | S k => split_go sep r k cur
    | 0 => if is_prefix sep s then cur :: split_go sep r (length sep - 1) []
           else split_go sep r 0 (cur ++ [c])
    end
  end.

Definition py_split (s sep : list ascii) : list (list ascii) := split_go sep s 0 [].

(** Python 2 [str.isspace] on one character: space, tab, LF, VT, FF, CR. *)
Definition is_ws (c : ascii) : bool :=
  match nat_of_ascii c with 32 | 9 | 10 | 11 | 12 | 13 => true | _ => false end.

Fixpoint lstrip (s : list ascii) : list ascii :=
  match s with [] => [] | c :: r => if is_ws c then lstrip r else s end.

(** [s.strip()] *)
Definition strip (s : list ascii) : list ascii := rev (lstrip (rev (lstrip s))).

(** [_get_map_name(a, n)]: [n] when [a] is [None] or empty, else
    ['{0} :|: {1}'.format(a, n)]. *)
Definition get_map_name (a : option (list ascii)) (n : list ascii) : list ascii :=
  match a with
  | None | Some [] => n
  | Some a => a ++ [" "; ":"; "|"; ":"; " "]%char ++ n
  end.

(** [_parse_map_name(name)]: the unpacking [a, n = name.split(':|:')] raises
    [ValueError] unless there are exactly two pieces, and the handler returns
    [('', name)]. *)
Definition parse_map_name (name : list ascii) : list ascii * list ascii :=
  match py_split name map_sep with
  | [a; n] => (strip a, strip n)
  | _ => ([], name)
  end.

End Funcs.

(* ===================================================================== *)
(** ** Proofs about the dispatcher *)
(* ===================================================================== *)

Module DispatchFacts.
Import Dispatch.

Lemma flat_app k l1 l2 : flat k (l1 ++ l2) = flat k l1 ++ flat k l2.
Proof. induction l1 as [|[k' w] r IH]; simpl; [done|]. by rewrite IH, app_assoc. Qed.

Lemma flat_prep_app k l1 l2 : flat_prep k (l1 ++ l2) = flat_prep k l1 ++ flat_prep k l2.
Proof. unfold flat_prep. by rewrite map_app, flat_app. Qed.

Lemma flat_prep_cons k k' m w r :
  flat_prep k ((k', m, w) :: r) = (if decide (k = k') then w else []) ++ flat_prep k r.
Proof. reflexivity. Qed.

Lemma flat_prep_empty k l : Forall (fun '(_, _, w) => w = []) l -> flat_prep k l = [].
Proof.
  induction 1 as [|[[k' m] w] r Hw _ IH]; [done|].
  rewrite flat_prep_cons, IH, Hw. by case_decide.
Qed.

Lemma inv_ext s s' :
  work_queue s' = work_queue s -> pending_work s' = pending_work s ->
  stashed_work s' = stashed_work s -> active_work s' = active_work s -> inv s -> inv s'.
Proof.
  intros Hq Hp Hs Ha [H1 H2 H3 H4 H5]. constructor; rewrite ?Hq, ?Hp, ?Hs, ?Ha; auto.
Qed.

Lemma handle_failure_maps s pw k r s' :
  handle_failure s pw k r = Some s' ->
  work_queue s' = work_queue s /\ pending_work s' = pending_work s /\
  stashed_work s' = stashed_work s /\ active_work s' = active_work s /\
  written s' = written s /\ submitted s' = submitted s.
Proof.
  unfold handle_failure. destruct (add_failure _ _) as [f' raised].
  destruct (unpack pw) as [[[k0 wm] w0]|]; [|done].
  destruct raised; intros [= <-]; done.
Qed.

Lemma inv_init : inv init.
Proof.
  constructor; simpl; intros *; rewrite ?lookup_empty.
  - by intros [? ?].
  - rewrite elem_of_nil. split; [done|]. by intros [? ?].
  - constructor.
  - by intros [? ?].
  - done.
Qed.

Lemma organize_core_inv s k wm w : inv s -> inv (organize_core s k wm w).
Proof.
  intros [H1 H2 H3 H4 H5]. unfold organize_core.
  destruct (active_work s !! k) as [a|] eqn:Ha.
  - destruct (default _ _) as [sm sv].
    constructor; simpl; auto. intros k'.
    destruct (decide (k' = k)) as [->|Hne].
    + intros _. apply H1. by rewrite Ha.
    + rewrite lookup_insert_ne by congruence. apply H4.
  - destruct (stashed_work s !! k) as [[sm sv]|] eqn:Hs; simpl.
    + assert (Hp : pending_work s !! k = None) by (apply H4; by rewrite Hs).
      rewrite Hp. simpl.
      assert (Hk : k ∉ work_queue s) by (rewrite H2, Hp; by intros [? ?]).
      constructor; simpl.
      * intros k' Hk'. destruct (decide (k' = k)) as [->|Hne]; [by rewrite Ha in Hk'|].
        rewrite lookup_insert_ne by congruence. auto.
      * intros k'. rewrite elem_of_app, list_elem_of_singleton.
        destruct (decide (k' = k)) as [->|Hne].
        -- rewrite lookup_insert_eq. split; [by eauto|auto].
        -- rewrite lookup_insert_ne by congruence. rewrite H2. intuition.
      * apply NoDup_app. split; [done|]. split; [|apply NoDup_singleton].
        intros x Hx Hx'. apply list_elem_of_singleton in Hx'. subst. done.
      * intros k'. destruct (decide (k' = k)) as [->|Hne].
        -- rewrite lookup_delete_eq. by intros [? ?].
        -- rewrite lookup_delete_ne, lookup_insert_ne by congruence. auto.
      * done.
    + destruct (pending_work s !! k) as [[pm pv]|] eqn:Hp; simpl.
      * constructor; simpl; auto.
        -- intros k' Hk'. destruct (decide (k' = k)) as [->|Hne]; [by rewrite Ha in Hk'|].
           rewrite lookup_insert_ne by congruence. auto.
        -- intros k'. destruct (decide (k' = k)) as [->|Hne].
           ++ rewrite lookup_insert_eq, H2, Hp. split; eauto.
           ++ rewrite lookup_insert_ne by congruence. auto.
        -- intros k' Hk'. destruct (decide (k' = k)) as [->|Hne]; [by rewrite Hs in Hk'|].
           rewrite lookup_insert_ne by congruence. auto.
      * assert (Hk : k ∉ work_queue s) by (rewrite H2, Hp; by intros [? ?]).
        constructor; simpl.
        -- intros k' Hk'. destruct (decide (k' = k)) as [->|Hne]; [by rewrite Ha in Hk'|].
           rewrite lookup_insert_ne by congruence. auto.
        -- intros k'. rewrite elem_of_app, list_elem_of_singleton.
           destruct (decide (k' = k)) as [->|Hne].
           ++ rewrite lookup_insert_eq. split; [by eauto|auto].
           ++ rewrite lookup_insert_ne by congruence. rewrite H2. intuition.
        -- apply NoDup_app. split; [done|]. split; [|apply NoDup_singleton].
           intros x Hx Hx'. apply list_elem_of_singleton in Hx'. subst. done.
        -- intros k' Hk'. destruct (decide (k' = k)) as [->|Hne]; [by rewrite Hs in Hk'|].
           rewrite lookup_insert_ne by congruence. auto.
        -- done.
Qed.

Lemma organize_item_inv s k wm w : inv s -> inv (organize_item s k wm w).
Proof.
  intros Hi. unfold organize_item.
  destruct (stashed_work s !! k), w; auto using organize_core_inv.
Qed.

Lemma step_inv s e s' : inv s -> step s e = Some s' -> inv s'.
Proof.
  intros Hi. destruct e as [k wm w| | |wid|wid k|wid k n|wid]; simpl.
  - intros [= <-]. by apply (inv_ext s).
  - destruct (prep_queue s) as [|[[k wm] w] r]; [done|]. intros [= <-].
    apply organize_item_inv. by apply (inv_ext s).
  - destruct (prep_queue s); [|done]. intros [= <-]. by apply (inv_ext s).
  - destruct Hi as [H1 H2 H3 H4 H5].
    destruct (work_queue s) as [|k r] eqn:Hq; [done|].
    destruct (pending_work s !! k) as [[wm w]|] eqn:Hp; [|done]. intros [= <-].
    apply NoDup_cons in H3 as [Hkr Hr].
    constructor; simpl.
    + intros k'. destruct (decide (k' = k)) as [->|Hne].
      * by rewrite lookup_delete_eq.
      * rewrite lookup_insert_ne, lookup_delete_ne by congruence. auto.
    + intros k'. destruct (decide (k' = k)) as [->|Hne].
      * rewrite lookup_delete_eq. split; [done|]. by intros [? ?].
      * rewrite lookup_delete_ne by congruence. rewrite <- H2, elem_of_cons. intuition.
    + done.
    + intros k' Hk'. destruct (decide (k' = k)) as [->|Hne].
      * by rewrite lookup_delete_eq.
      * rewrite lookup_delete_ne by congruence. auto.
    + intros k' wid' pw. destruct (decide (k' = k)) as [->|Hne].
      * rewrite lookup_insert_eq. intros [= <- <-]. eauto.
      * rewrite lookup_insert_ne by congruence. eauto.
  - destruct Hi as [H1 H2 H3 H4 H5].
    destruct (active_work s !! k) as [[g pw]|] eqn:Ha; [|done]. intros Hs'.
    assert (Hi' : inv (set_written (set_active s (delete k (active_work s)))
                    (written s ++ [(k, blob_work pw)]))).
    { constructor; simpl; auto.
      - intros k'. destruct (decide (k' = k)) as [->|Hne].
        + intros _. apply H1. by rewrite Ha.
        + rewrite lookup_delete_ne by congruence. auto.
      - intros k' g' pw'. destruct (decide (k' = k)) as [->|Hne].
        + by rewrite lookup_delete_eq.
        + rewrite lookup_delete_ne by congruence. eauto. }
    destruct (dict_get _ _); injection Hs' as <-; [|done].
    eapply inv_ext; [..|exact Hi']; reflexivity.
  - destruct Hi as [H1 H2 H3 H4 H5].
    destruct (active_work s !! k) as [[g pw]|] eqn:Ha; [|done]. intros Hs'.
    apply handle_failure_maps in Hs' as (Eq & Ep & Es & Ea & _).
    apply (inv_ext _ s' Eq Ep Es Ea). constructor; simpl; auto.
    + intros k'. destruct (decide (k' = k)) as [->|Hne].
      * intros _. apply H1. by rewrite Ha.
      * rewrite lookup_delete_ne by congruence. auto.
    + intros k' g' pw'. destruct (decide (k' = k)) as [->|Hne].
      * by rewrite lookup_delete_eq.
      * rewrite lookup_delete_ne by congruence. eauto.
  - destruct (find_by_worker _ _) as [k|]; [|by intros [= <-]].
    destruct Hi as [H1 H2 H3 H4 H5].
    destruct (active_work s !! k) as [[g pw]|] eqn:Ha; [|intros [= <-]; by constructor]. intros Hs'.
    apply handle_failure_maps in Hs' as (Eq & Ep & Es & Ea & _).
    apply (inv_ext _ s' Eq Ep Es Ea). constructor; simpl; auto.
    + intros k'. destruct (decide (k' = k)) as [->|Hne].
      * intros _. apply H1. by rewrite Ha.
      * rewrite lookup_delete_ne by congruence. auto.
    + intros k' g' pw'. destruct (decide (k' = k)) as [->|Hne].
      * by rewrite lookup_delete_eq.
      * rewrite lookup_delete_ne by congruence. eauto.
Qed.


Lemma in_order_init : in_order init.
Proof. intros k. unfold act_of, pend_of, stash_of. simpl. by rewrite !lookup_empty. Qed.

Lemma flat_prep_tick k (l : list (work_key * (metrics * list work_entry))) :
  flat_prep k (map (fun '(k', (sm, _)) => (k', sm, [])) l) = [].
Proof. induction l as [|[k' [sm sv]] l IH]; [done|]. cbn [map]. rewrite flat_prep_cons, IH. by case_decide. Qed.

(** The organizer keeps the per-key order, whatever the state. *)
Lemma organize_core_order s k wm w :
  (forall k', flat k' (written s) ++ act_of s k' ++ pend_of s k' ++ stash_of s k'
              ++ (if decide (k' = k) then w else []) ++ flat_prep k' (prep_queue s)
              = flat k' (submitted s)) ->
  in_order (organize_core s k wm w).
Proof.
  intros H k'. specialize (H k'). unfold organize_core, act_of, pend_of, stash_of in *.
  destruct (active_work s !! k) as [a|] eqn:Ha.
  - destruct (stashed_work s !! k) as [[sm sv]|] eqn:Hs; simpl;
      (destruct (decide (k' = k)) as [->|Hne];
       [rewrite lookup_insert_eq, Ha; rewrite Ha, ?Hs in H; rewrite <- H, <- ?app_assoc; done
       |rewrite lookup_insert_ne by congruence; exact H]).
  - destruct (stashed_work s !! k) as [[sm sv]|] eqn:Hs; simpl;
      destruct (pending_work s !! k) as [[pm pv]|] eqn:Hp; simpl;
      (destruct (decide (k' = k)) as [->|Hne]).
    all: try (rewrite ?lookup_insert_ne, ?lookup_delete_ne by congruence; exact H).
    all: rewrite ?lookup_insert_eq, ?lookup_delete_eq, ?Ha, ?Hs;
      rewrite ?Ha, ?Hp, ?Hs in H; rewrite <- H; simpl; rewrite <- ?app_assoc; reflexivity.
Qed.

Lemma step_order s e s' :
  inv s -> in_order s -> no_failure e -> step s e = Some s' -> in_order s'.
Proof.
  intros Hi Ho Hf. destruct e as [k wm w| | |wid|wid k|wid k n|wid]; simpl; try done.
  - intros [= <-] k'. specialize (Ho k'). unfold act_of, pend_of, stash_of in *. simpl.
    rewrite flat_prep_app, flat_app, <- Ho. simpl. rewrite <- !app_assoc. done.
  - destruct (prep_queue s) as [|[[k wm] w] r] eqn:Hq; [done|]. intros [= <-].
    unfold organize_item. simpl.
    destruct (stashed_work s !! k) eqn:Hs, w as [|x w];
      try (apply organize_core_order; intros k'; specialize (Ho k');
           rewrite Hq, flat_prep_cons in Ho; exact Ho).
    intros k'. specialize (Ho k'). rewrite Hq, flat_prep_cons in Ho.
    unfold act_of, pend_of, stash_of in *. simpl. rewrite <- Ho. by case_decide.
  - destruct (prep_queue s) eqn:Hq; [|done]. intros [= <-] k'. specialize (Ho k').
    unfold act_of, pend_of, stash_of in *. simpl. rewrite flat_prep_tick, <- Ho, Hq. done.
  - destruct (work_queue s) as [|k r] eqn:Hq; [done|].
    destruct (pending_work s !! k) as [[wm w]|] eqn:Hp; [|done]. intros [= <-] k'.
    assert (Ha : active_work s !! k = None).
    { destruct (active_work s !! k) eqn:Ha; [|done].
      rewrite (inv_active _ Hi k) in Hp; [done|by eexists]. }
    specialize (Ho k'). unfold act_of, pend_of, stash_of in *. simpl.
    destruct (decide (k' = k)) as [->|Hne].
    + rewrite lookup_insert_eq, lookup_delete_eq. rewrite Ha, Hp in Ho. rewrite <- Ho. done.
    + rewrite lookup_insert_ne, lookup_delete_ne by congruence. exact Ho.
  - destruct (active_work s !! k) as [[g pw]|] eqn:Ha; [|done]. intros Hs'.
    assert (Ho' : in_order (set_written (set_active s (delete k (active_work s)))
                             (written s ++ [(k, blob_work pw)]))).
    { intros k'. specialize (Ho k'). unfold act_of, pend_of, stash_of in *. simpl.
      rewrite flat_app. simpl.
      destruct (decide (k' = k)) as [->|Hne].
      - rewrite lookup_delete_eq. rewrite Ha in Ho. rewrite <- Ho, <- !app_assoc. done.
      - rewrite lookup_delete_ne by congruence. rewrite app_nil_r. exact Ho. }
    destruct (dict_get _ _); injection Hs' as <-; [|done]. exact Ho'.
Qed.

Lemma run_inv_order es : forall s s',
  inv s -> run s es = Some s' ->
  inv s' /\ (in_order s -> Forall no_failure es -> in_order s').
Proof.
  induction es as [|e es IH]; intros s s' Hi Hr; simpl in Hr.
  - injection Hr as <-. auto.
  - destruct (step s e) as [s1|] eqn:Hs; [|done].
    destruct (IH s1 s') as [Hi' Ho']; [exact (step_inv s e s1 Hi Hs)|done|].
    split; [done|]. intros Ho Hf. apply Forall_cons in Hf as [He Hf].
    apply Ho'; [|done]. exact (step_order s e s1 Hi Ho He Hs).
Qed.


Lemma organize_item_active s k wm w :
  is_Some (active_work s !! k) ->
  pending_work (organize_item s k wm w) = pending_work s /\
  work_queue (organize_item s k wm w) = work_queue s /\
  stash_of (organize_item s k wm w) k = stash_of s k ++ w.
Proof.
  intros [a Ha]. unfold organize_item.
  destruct (stashed_work s !! k) as [[sm sv]|] eqn:Hs, w as [|x w];
    try (split; [done|]; split; [done|]; by rewrite app_nil_r);
    unfold organize_core; rewrite Ha; unfold stash_of; rewrite ?Hs; simpl;
    (split; [done|]; split; [done|]); by rewrite lookup_insert_eq, ?Hs.
Qed.

(** C8: an empty work list taken from the prep queue is discarded when its
    key has no stash (only the queue item is consumed); when the key has a
    stash and is not active, it flushes the stash into the key's pending
    work. *)
Theorem put_empty_work_flush (s : dstate) (k : work_key) (wm : metrics)
  (r : list (work_key * metrics * list work_entry))
  (Hq : prep_queue s = (k, wm, []) :: r) :
  (stashed_work s !! k = None -> step s EOrganize = Some (set_prep s r)) /\
  (forall sm sv, stashed_work s !! k = Some (sm, sv) -> active_work s !! k = None ->
     exists s', step s EOrganize = Some s' /\ stashed_work s' !! k = None /\
       pend_of s' k = pend_of s k ++ sv /\ is_Some (pending_work s' !! k) /\
       active_work s' = active_work s /\ prep_queue s' = r).
Proof.
  split.
  - intros Hs. simpl. rewrite Hq. unfold organize_item. simpl. by rewrite Hs.
  - intros sm sv Hs Ha. simpl. rewrite Hq. unfold organize_item, organize_core. simpl.
    rewrite Hs, Ha. simpl. unfold pend_of.
    destruct (pending_work s !! k) as [[pm pv]|] eqn:Hp; simpl;
      eexists; (split; [reflexivity|]); simpl;
      rewrite lookup_delete_eq, lookup_insert_eq, ?Hp, ?app_nil_r;
      repeat split; eauto.
Qed.

Lemma put_empty_work_flush_witness :
  let s0 := set_prep init [(7, 1, [])] in
  let s := default init (run init [EPut 7 1 [10]; EOrganize; EProvision 3; EPut 7 1 [11];
                                   EOrganize; ESuccess 3 7; ETick]) in
  (prep_queue s0 = [(7, 1, [])] /\ stashed_work s0 !! 7 = None /\
   step s0 EOrganize = Some (set_prep s0 [])) /\
  (prep_queue s = [(7, 1, [])] /\ stashed_work s !! 7 = Some (1, [11]) /\
   active_work s !! 7 = None /\
   exists s', step s EOrganize = Some s' /\ stashed_work s' !! 7 = None /\
     pend_of s' 7 = pend_of s 7 ++ [11] /\ is_Some (pending_work s' !! 7) /\
     active_work s' = active_work s /\ prep_queue s' = []).
Proof.
  intros s0 s.
  assert (Hq0 : prep_queue s0 = [(7, 1, [])]) by reflexivity.
  assert (Hs0 : stashed_work s0 !! 7 = None) by reflexivity.
  assert (Hq : prep_queue s = [(7, 1, [])]) by (subst s; vm_compute; reflexivity).
  assert (Hs : stashed_work s !! 7 = Some (1, [11])) by (subst s; vm_compute; reflexivity).
  assert (Ha : active_work s !! 7 = None) by (subst s; vm_compute; reflexivity).
  split.
  - split; [exact Hq0|]. split; [exact Hs0|].
    exact (proj1 (put_empty_work_flush s0 7 1 [] Hq0) Hs0).
  - split; [exact Hq|]. split; [exact Hs|]. split; [exact Ha|].
    exact (proj2 (put_empty_work_flush s 7 1 [] Hq) 1 [11] Hs Ha).
Defined.

(** C6 (amended): in every reachable state the maps keep at most one active
    work per key (an active key is neither pending nor queued, a stashed key
    is not pending); work organized for an active key only extends its stash;
    and in runs where no dispatched work fails, the entries written to a key
    are a prefix of the entries submitted for it, in submission order. *)
Theorem dispatcher_key_exclusive (es : list event) (s : dstate)
  (Hrun : run init es = Some s) :
  inv s /\
  (forall k wm w, is_Some (active_work s !! k) ->
     pending_work (organize_item s k wm w) = pending_work s /\
     work_queue (organize_item s k wm w) = work_queue s /\
     stash_of (organize_item s k wm w) k = stash_of s k ++ w) /\
  (Forall no_failure es -> forall k, flat k (written s) `prefix_of` flat k (submitted s)).
Proof.
  destruct (run_inv_order es init s inv_init Hrun) as [Hi Ho].
  split; [done|]. split; [intros; by apply organize_item_active|].
  intros Hf k. specialize (Ho in_order_init Hf k).
  exists (act_of s k ++ pend_of s k ++ stash_of s k ++ flat_prep k (prep_queue s)).
  by rewrite <- Ho.
Qed.

Lemma dispatcher_key_exclusive_witness :
  run init [EPut 7 1 [10]; EOrganize; EProvision 3]
    = Some (default init (run init [EPut 7 1 [10]; EOrganize; EProvision 3])) /\
  inv (default init (run init [EPut 7 1 [10]; EOrganize; EProvision 3])).
Proof.
  split; [vm_compute; reflexivity|].
  apply (dispatcher_key_exclusive [EPut 7 1 [10]; EOrganize; EProvision 3]).
  vm_compute; reflexivity.
Defined.

(** C6 as stated fails: after a failure, the remaining work is put back
    behind work submitted later, and is written after it. *)
Lemma dispatcher_order_counterexample :
  ~ (forall es s, run init es = Some s ->
       forall k, flat k (written s) `prefix_of` flat k (submitted s)).
Proof.
  intros H.
  destruct (H retry_reorders (default init (run init retry_reorders)) ltac:(vm_compute; reflexivity) 7)
    as [l Hl].
  vm_compute in Hl. discriminate Hl.
Qed.

(** C5: the failure counter is stored under [pack(pw)] but the success path
    looks up [pw], so a success never clears it.  A work item that failed
    once and then succeeded keeps its counter, and the same work submitted
    again reaches the failure callback after 4 failed attempts instead of 5.
    A fresh item reaches it after exactly 5. *)
Theorem failure_counter_not_cleared :
  match run init retry_then_success with
  | Some s => dict_get (failures s) (EncBytes (Enc 7 1 [10])) = Some 1 /\ active_work s = ∅
  | None => False
  end /\
  match run init (retry_then_success ++ submit_and_fail 4) with
  | Some s => callbacks s = [(max_retries_msg, (7, 1, [10]))]
  | None => False
  end /\
  match run init (submit_and_fail 4) with
  | Some s => callbacks s = [] /\ prep_queue s = [(7, 1, [10])]
  | None => False
  end /\
  match run init (submit_and_fail 5) with
  | Some s => callbacks s = [(max_retries_msg, (7, 1, [10]))] /\ prep_queue s = [] /\
              active_work s = ∅ /\ pending_work s = ∅
  | None => False
  end.
Proof. vm_compute. repeat split; reflexivity. Qed.

End DispatchFacts.

(* ===================================================================== *)
(** ** Proofs about persisted storage and domain expansion *)
(* ===================================================================== *)

Module PersistFacts.
Import Py Persist.

Lemma map2_ok f xs ys : length xs = length ys -> map2 f xs ys = Ok (zip_with f xs ys).
Proof.
  revert ys; induction xs as [|x xs IH]; intros [|y ys] H; simpl in *; try done.
  rewrite IH by lia. reflexivity.
Qed.

Lemma zip_add_sub (total tD : list Z) :
  length total = length tD ->
  zip_with (fun x y => x + y)%Z tD (zip_with (fun x y => x - y)%Z total tD) = total.
Proof.
  revert tD; induction total as [|t total IH]; intros [|d tD] H; simpl in *; try done.
  rewrite IH by lia. f_equal. lia.
Qed.

Lemma range_step_ok d b : (0 < b)%Z -> exists ax, range_step d b = Ok ax.
Proof. intros Hb. destruct b; try lia. eexists. reflexivity. Qed.

Lemma grid_axes_ok bD ds i :
  List.Forall (fun b => 0 < b)%Z bD -> (i + length ds <= length bD)%nat ->
  exists lst, grid_axes bD ds i = Ok lst /\ length lst = length ds.
Proof.
  intros Hpos. revert i; induction ds as [|d ds IH]; intros i Hl; simpl in *.
  - eexists; split; reflexivity.
  - destruct (nth_error bD i) as [b|] eqn:Hb.
    2:{ apply nth_error_None in Hb. lia. }
    assert (0 < b)%Z as Hb0.
    { eapply List.Forall_forall; [exact Hpos|]. eapply nth_error_In; exact Hb. }
    destruct (range_step_ok d b Hb0) as [ax Hax].
    destruct (IH (S i)) as [lst [E L]]; [lia|].
    unfold getidx. rewrite Hb. cbn [bind]. rewrite Hax. cbn [bind]. rewrite E. cbn [bind].
    eexists; split; [reflexivity|simpl; lia].
Qed.

Lemma product_length lst v : In v (product lst) -> length v = length lst.
Proof.
  revert v; induction lst as [|l r IH]; intros v Hv; simpl in *.
  - destruct Hv as [<-|[]]; reflexivity.
  - apply in_flat_map in Hv as [x [_ Hx]]. apply in_map_iff in Hx as [w [<- Hw]].
    simpl. f_equal. apply IH, Hw.
Qed.

Lemma has_brick_prefix l1 l2 x :
  ly_blist l1 `prefix_of` ly_blist l2 -> has_brick l1 x -> has_brick l2 x.
Proof.
  intros [k Hk] (g & e & Hin & He). exists g, e. split; [|exact He].
  rewrite Hk. apply in_or_app. left. exact Hin.
Qed.

Lemma write_brick_ok l v bD total :
  length v = length bD -> v <> [] -> total <> [] ->
  exists l', write_brick l v bD total = Ok l' /\ ly_pdd l' = ly_pdd l /\
    ly_blist l `prefix_of` ly_blist l' /\ has_brick l' (combine v (brick_ends v bD)).
Proof.
  intros Hl Hv Ht. unfold write_brick, calculate_extents.
  rewrite map2_ok by exact Hl. cbn [bind].
  destruct total as [|t tr]; [done|].
  destruct v as [|o vr]; [done|]. destruct bD as [|b br]; [simpl in Hl; lia|].
  cbn [combine zip_with bind]. unfold brick_ends. cbn [zip_with combine].
  match goal with |- context [if ?c then _ else _] => destruct c eqn:E end.
  - exists l. split; [reflexivity|]. split; [reflexivity|]. split; [reflexivity|].
    apply existsb_exists in E as [[g e] [Hin He]].
    exists g, e. split; [exact Hin|]. apply bool_decide_eq_true_1 in He. exact He.
  - eexists. split; [reflexivity|]. split; [reflexivity|]. split.
    + apply prefix_app_r. reflexivity.
    + eexists _, _. split; [apply in_or_app; right; left; reflexivity|]. reflexivity.
Qed.

Lemma write_all_ok vs l bD total :
  List.Forall (fun v => length v = length bD /\ v <> []) vs -> total <> [] ->
  exists l', write_all l vs bD total = Ok l' /\ ly_pdd l' = ly_pdd l /\
    ly_blist l `prefix_of` ly_blist l' /\
    forall v, In v vs -> has_brick l' (combine v (brick_ends v bD)).
Proof.
  revert l; induction vs as [|v vs IH]; intros l Hvs Ht; simpl.
  - exists l. split; [reflexivity|]. split; [reflexivity|]. split; [reflexivity|]. intros _ [].
  - inversion Hvs as [|? ? [Hl Hv] Hr]; subst.
    destruct (write_brick_ok l v bD total Hl Hv Ht) as (l1 & E1 & P1 & B1 & H1).
    destruct (IH l1 Hr Ht) as (l2 & E2 & P2 & B2 & H2).
    rewrite E1. cbn [bind]. exists l2. split; [exact E2|]. split; [congruence|].
    split; [etrans; eassumption|].
    intros w [<-|Hw]; [eapply has_brick_prefix; eassumption|apply H2, Hw].
Qed.

(** C1: [get] does not pre-fill its buffer with the parameter's fill value.
    For a fresh 1-d parameter of extent 10 (bricks at origins 0 and 6), with
    no write performed, [get((slice(0,4),))] returns zeros, whatever the fill
    value: the buffer is pre-filled with -1 and the bricks were created
    without a fill value, so they read as 0; the cells of the buffer no brick
    covers keep the -1. *)
Lemma get_before_write_not_fill :
  match init_parameter None [10%Z] with
  | Ok l =>
    getitem (storage_of l) [SSlice (Some 0%Z) (Some 4%Z) None] = Ok ([4%Z], [0; 0; 0; 0]%Z) /\
    getitem (storage_of l) [SSlice None None None] = Ok ([12%Z], repeat 0%Z 10 ++ [-1; -1]%Z)
  | Err _ => False
  end.
Proof. vm_compute. split; reflexivity. Qed.

(** C2: the shape [get] returns for a range axis is counted against the end
    of the brick grid (the R-tree bound plus one), not against the
    parameter's extent.  For a 1-d parameter of extent 10 with bricks of 6,
    [get((slice(None),))] selects the 10 indices of the domain but returns an
    array of shape 12. *)
Lemma get_shape_brick_grid :
  slice_len None None None 10%Z = Ok 10%Z /\
  match init_parameter None [10%Z] with
  | Ok l =>
    shape_from_slice (ly_tree l) [SSlice None None None] = Ok [12%Z] /\
    exists data, getitem (storage_of l) [SSlice None None None] = Ok ([12%Z], data)
  | Err _ => False
  end.
Proof. vm_compute. split; [reflexivity|]. split; [reflexivity|]. eexists. reflexivity. Qed.

(** C3: the slice calculator fails whenever a range axis stops exactly at
    the brick's end [bo + bs], whatever its start and step; so
    [get((slice(1,6),))] on a fresh parameter of extent 10, whose first brick
    has origin 0 and size 6, raises [ValueError] instead of returning the
    slice. *)
Lemma calc_slices_stop_at_brick_end :
  (forall a k bo bs vo vs, exists e, calc_axis (SSlice a (Some (bo + bs)%Z) k) bo bs vo vs = Err e) /\
  match init_parameter None [10%Z] with
  | Ok l =>
    getitem (storage_of l) [SSlice (Some 1%Z) (Some 6%Z) None] =
      Err (ValueError "The slice is not contained in this brick (bo > sl.stop)")
  | Err _ => False
  end.
Proof.
  split.
  - intros a k bo bs vo vs. unfold calc_axis.
    destruct a as [a|]; cbn [bind].
    + destruct (Z.leb bo a && Z.ltb a (bo + bs))%Z; cbn [bind].
      2: destruct (Z.ltb a bo); cbn [bind]; [|eexists; reflexivity].
      all: replace (Z.ltb (bo + bs) (bo + bs)) with false by (symmetry; apply Z.ltb_irrefl);
        rewrite andb_false_r; cbn [bind]; eexists; reflexivity.
    + replace (Z.ltb (bo + bs) (bo + bs)) with false by (symmetry; apply Z.ltb_irrefl).
      rewrite andb_false_r. cbn [bind]. eexists; reflexivity.
  - vm_compute. reflexivity.
Qed.

(** C4: [expand_domain] accepts every new extent with the same number of
    axes.  When the parameter is registered ([parameter_domain_dict] holds
    [tD, bD, cD] with positive brick sizes, one per axis of a non-empty
    domain), any [total] of the same rank, smaller or larger on any axis, is
    accepted: the recorded extent becomes [total], no brick is removed, and
    every origin of the brick grid over [total] has a brick with the extents
    [calculate_extents] gives it. *)
Lemma expand_domain_same_rank l tD bD cD total
  (Hp : ly_pdd l = Some (tD, bD, cD)) (Hlen : length total = length tD)
  (HbD : length bD = length tD) (Hpos : List.Forall (fun b => 0 < b)%Z bD) (Hne : tD <> []) :
  exists lst l', grid_axes bD total 0 = Ok lst /\ expand_domain l total = Ok l' /\
    ly_pdd l' = Some (total, bD, cD) /\ ly_blist l `prefix_of` ly_blist l' /\
    forall v, In v (product lst) -> has_brick l' (combine v (brick_ends v bD)).
Proof.
  destruct (grid_axes_ok bD total 0 Hpos) as [lst [Eg Lg]]; [simpl; lia|].
  exists lst. unfold expand_domain. rewrite Hp. cbn [bind].
  rewrite Hlen, Nat.eqb_refl. cbn [negb].
  rewrite map2_ok by exact Hlen. cbn [bind].
  rewrite map2_ok by (rewrite length_zip_with; lia). cbn [bind].
  rewrite zip_add_sub by exact Hlen. rewrite Eg. cbn [bind].
  assert (Ht : total <> []) by (destruct total, tD; simpl in *; congruence).
  destruct (product lst) as [|p ps] eqn:Ep.
  - eexists. split; [reflexivity|]. split; [reflexivity|]. split; [reflexivity|]. split; [reflexivity|]. intros _ [].
  - destruct (write_all_ok (p :: ps) (set_pdd l (Some (total, bD, cD))) bD total) as (l' & E & P & B & H).
    + apply List.Forall_forall. intros v Hv. rewrite <- Ep in Hv.
      apply product_length in Hv. rewrite Hv, Lg.
      split; [lia|]. intros ->. simpl in Hv. destruct total; simpl in *; congruence.
    + exact Ht.
    + exists l'. split; [reflexivity|]. split; [exact E|]. split; [exact P|].
      split; [exact B|]. exact H.
Qed.

(** Instance of C4: a registered 1-d parameter of extent 10 expanded to 16. *)
Lemma expand_domain_same_rank_witness :
  let l := {| ly_sdom := None; ly_pdd := Some ([10%Z], [6%Z], [2%Z]); ly_blist := [];
              ly_tree := {| rt_dim := 2; rt_entries := [] |}; ly_files := []; ly_next := 0%nat |} in
  ly_pdd l = Some ([10%Z], [6%Z], [2%Z]) /\ length [16%Z] = length [10%Z] /\
  length [6%Z] = length [10%Z] /\ List.Forall (fun b => 0 < b)%Z [6%Z] /\ [10%Z] <> [] /\
  exists lst l', grid_axes [6%Z] [16%Z] 0 = Ok lst /\ expand_domain l [16%Z] = Ok l' /\
    ly_pdd l' = Some ([16%Z], [6%Z], [2%Z]) /\ ly_blist l `prefix_of` ly_blist l' /\
    forall v, In v (product lst) -> has_brick l' (combine v (brick_ends v [6%Z])).
Proof.
  intros l.
  split; [reflexivity|]. split; [reflexivity|]. split; [reflexivity|].
  split; [repeat constructor; lia|]. split; [discriminate|].
  apply (expand_domain_same_rank l [10%Z] [6%Z] [2%Z] [16%Z]);
    [reflexivity|reflexivity|reflexivity|repeat constructor; lia|discriminate].
Defined.

(** C4 does not hold as stated: [expand_domain] has no shrink or
    non-temporal-change check.  A 1-d parameter of extent 12 shrunk to 6 is
    accepted and records the smaller extent; a 2-d parameter of extent
    [6, 3] (spatial domain [3]) grown to [6, 5] on its non-temporal axis is
    accepted and gets a new brick. *)
Lemma expand_domain_no_shrink_check :
  match init_parameter None [12%Z] with
  | Ok l => expand_domain l [6%Z] = Ok (set_pdd l (Some ([6%Z], [6%Z], [2%Z])))
  | Err _ => False
  end /\
  match init_parameter (Some [3%Z]) [6%Z; 3%Z] with
  | Ok l =>
    length (ly_blist l) = 1%nat /\
    match expand_domain l [6%Z; 5%Z] with
    | Ok l' => ly_pdd l' = Some ([6%Z; 5%Z], [6%Z; 3%Z], [2%Z; 3%Z]) /\ length (ly_blist l') = 2%nat
    | Err _ => False
    end
  | Err _ => False
  end.
Proof. vm_compute. repeat split; reflexivity. Qed.

End PersistFacts.

(* ===================================================================== *)
(** ** Proofs about the QC functions *)
(* ===================================================================== *)

Module QCFacts.
Import Py QC.



(** C7: on [dat = [-1,3,40,-1,1,-6,-6,1]] with [acc = 0.1], [N = 5] and
    [L = 5], [dataqc_spiketest] returns [[1,1,0,1,1,1,1,1]]. *)
Lemma spiketest_example :
  dataqc_spiketest
    {| nd_kind := "i"; nd_shape := [8%nat]; nd_data := map inject_Z [-1; 3; 40; -1; 1; -6; -6; 1]%Z |}
    {| nd_kind := "f"; nd_shape := []; nd_data := [1 # 10] |}
    {| nd_kind := "i"; nd_shape := []; nd_data := [5%Q] |}
    {| nd_kind := "i"; nd_shape := []; nd_data := [5%Q] |}
  = Ok [1; 1; 0; 1; 1; 1; 1; 1]%Z.
Proof. vm_compute. reflexivity. Qed.

(** C10: an empty 1-d float array (here with [acc = 0.1], [N = L = 5],
    [reso = 0.1], [num = 10]) is not refused with the 'must be a vector'
    error: [isnumeric] iterates with [np.nditer], which raises on zero-size
    operands, before the vector check is reached. *)
Lemma empty_array_not_vector_error :
  let e := {| nd_kind := "f"; nd_shape := [0%nat]; nd_data := [] |} in
  let sc := fun q => {| nd_kind := "f"; nd_shape := []; nd_data := [q] |} in
  dataqc_spiketest e (sc (1 # 10)) (sc 5%Q) (sc 5%Q) =
    Err (ValueError "Iteration of zero-sized operands is not enabled") /\
  dataqc_spiketest e (sc (1 # 10)) (sc 5%Q) (sc 5%Q) <> Err (ValueError "'dat' must be a vector") /\
  dataqc_stuckvaluetest e (sc (1 # 10)) (sc 10%Q) <> Err (ValueError "'x' must be a vector").
Proof. intros e sc. split; [reflexivity|]. split; vm_compute; discriminate. Qed.

End QCFacts.

(* ===================================================================== *)
(** ** Proofs about expression evaluation *)
(* ===================================================================== *)

Module FuncsFacts.
Import Funcs.

Section Facts.
Context {V Sel : Type} (m1 : Sel) (pv : string -> Sel -> V) (s : Sel).

Lemma map_lookup {A B} (f : A -> B) (l : list A) i : map f l !! i = option_map f (l !! i).
Proof. revert i; induction l as [|x l IH]; intros [|i]; simpl; auto. Qed.

Lemma assoc_map {A B} (g : A -> B) k (m : list (string * A)) :
  assoc k (map (fun p => (p.1, g p.2)) m) = option_map g (assoc k m).
Proof. induction m as [|[k' a] m IH]; simpl; [reflexivity|]. destruct (String.eqb k k'); auto. Qed.

Lemma evaluate_python n args pm kw c :
  evaluate m1 pv s (PythonFunction n args pm kw c) =
  match python_args m1 pv s (option_map (map (fun p => (p.1, eval_arg m1 pv s p.2))) pm) args with
  | None => None
  | Some vals => match kw with None => Some (c vals) | Some _ => None end
  end.
Proof.
  simpl. destruct pm as [m|]; [|reflexivity]. simpl.
  lazymatch goal with
  | |- match python_args _ _ _ (Some ?X) _ with _ => _ end = _ =>
    replace X with (map (fun p => (p.1, eval_arg m1 pv s p.2)) m); [reflexivity|]
  end.
  induction m as [|[k a] m IH]; [reflexivity|]. simpl. rewrite IH. destruct a; reflexivity.
Qed.

Lemma evaluate_numexpr n args pm e :
  evaluate m1 pv s (NumexprFunction n args pm e) =
  option_map e (ne_locals m1 pv s (option_map (map (fun p => (p.1, eval_arg m1 pv s p.2))) pm) ∅ args).
Proof.
  simpl. do 2 f_equal. destruct pm as [m|]; [|reflexivity]. simpl. f_equal.
  induction m as [|[k a] m IH]; [reflexivity|]. simpl. rewrite IH. destruct a; reflexivity.
Qed.

Lemma arg_of_map pm k :
  arg_of (option_map (map (fun p => (p.1, eval_arg m1 pv s p.2))) pm) k = eval_arg m1 pv s (map_arg pm k).
Proof.
  destruct pm as [m|]; simpl; [|reflexivity].
  rewrite assoc_map. destruct (assoc k m); reflexivity.
Qed.

Lemma python_args_lookup pm args vals i k :
  python_args m1 pv s (option_map (map (fun p => (p.1, eval_arg m1 pv s p.2))) pm) args = Some vals ->
  args !! i = Some k ->
  match map_arg pm k with
  | AFun g => exists v, evaluate m1 pv s g = Some v /\ vals !! i = Some (PVal v)
  | ANum z => vals !! i = Some (PNum z)
  | ANums l => vals !! i = Some (PNums l)
  | AName a =>
    vals !! i = Some (if String.eqb k "pv_callback" then PCallback (fun x => pv x s)
                      else PVal (pv a (if ends_with_star k then m1 else s)))
  end.
Proof.
  revert vals i. induction args as [|k' args IH]; intros vals i Hp Hk; [discriminate|].
  simpl in Hp. rewrite arg_of_map in Hp.
  destruct (py_bind m1 pv s k' (eval_arg m1 pv s (map_arg pm k'))) as [p|] eqn:Eb; [|discriminate].
  destruct (python_args m1 pv s _ args) as [vs|] eqn:Er; [|discriminate].
  simpl in Hp. injection Hp as <-.
  destruct i as [|i]; simpl in Hk |- *.
  - injection Hk as ->. unfold eval_arg, py_bind in Eb.
    destruct (map_arg pm k) as [g|z|l|a]; simpl in Eb.
    + destruct (evaluate m1 pv s g) as [v|]; [|discriminate]. simpl in Eb. injection Eb as <-. eauto.
    + congruence.
    + congruence.
    + destruct (String.eqb k "pv_callback"); [congruence|].
      destruct (ends_with_star k); congruence.
  - exact (IH vs i eq_refl Hk).
Qed.

Lemma ne_locals_cons_inv pm ld ld' k r :
  ne_locals m1 pv s (option_map (map (fun p => (p.1, eval_arg m1 pv s p.2))) pm) ld (k :: r) = Some ld' ->
  exists x, ne_locals m1 pv s (option_map (map (fun p => (p.1, eval_arg m1 pv s p.2))) pm)
              (<[ld_key pm k := x]> ld) r = Some ld' /\
    match map_arg pm k with
    | AFun g => exists v, evaluate m1 pv s g = Some v /\ x = NVal v
    | ANum z => x = NNum z
    | ANums l => x = NNums l
    | AName a => x = NVal (pv a (if ends_with_star k then m1 else s))
    end.
Proof.
  intros H. simpl in H. rewrite arg_of_map in H. unfold ld_key.
  destruct (map_arg pm k) as [g|z|l|a]; simpl in H.
  - destruct (evaluate m1 pv s g) as [v|]; [|discriminate]. eauto.
  - eauto.
  - eauto.
  - destruct (ends_with_star k); eauto.
Qed.

Lemma ne_locals_frame pm key r ld ld' :
  ne_locals m1 pv s (option_map (map (fun p => (p.1, eval_arg m1 pv s p.2))) pm) ld r = Some ld' ->
  key ∉ map (ld_key pm) r -> ld' !! key = ld !! key.
Proof.
  revert ld; induction r as [|k r IH]; intros ld Hr Hk; [simpl in Hr; congruence|].
  apply ne_locals_cons_inv in Hr as [x [Hr _]]. simpl in Hk. apply not_elem_of_cons in Hk as [Hne Hk].
  rewrite (IH _ Hr Hk). apply lookup_insert_ne. congruence.
Qed.

End Facts.

(** C9: how [evaluate] binds the arguments.  When a [PythonFunction]
    evaluates to a result, it has no [kwarg_map] and the result is its
    callable applied to the argument values, where the argument at position
    [i] with formal name [k] is bound to the value of its nested function
    evaluated with the same callback and selection, to its number(s), or,
    for a parameter name [a], to the callback's value of [a] with index -1
    when [k] ends in '*' and over the same selection otherwise; except that
    an argument named 'pv_callback' is bound to
    [lambda arg: pval_callback(arg, slice_)] instead.  A [PythonFunction]
    with a [kwarg_map] raises.  When a [NumexprFunction] evaluates to a
    result, the same values (without the 'pv_callback' exception) are
    stored under [k], or under [k[:-1]] for a starred parameter name; when
    several arguments are stored under the same name, the value of the last
    of them is kept. *)
Lemma evaluate_binds {V Sel : Type} (m1 : Sel) (pv : string -> Sel -> V) (s : Sel) :
  (forall n args pm kw c r i k,
     evaluate m1 pv s (PythonFunction n args pm kw c) = Some r -> args !! i = Some k ->
     kw = None /\
     exists vals, r = c vals /\
       match map_arg pm k with
       | AFun g => exists v, evaluate m1 pv s g = Some v /\ vals !! i = Some (PVal v)
       | ANum z => vals !! i = Some (PNum z)
       | ANums l => vals !! i = Some (PNums l)
       | AName a =>
         vals !! i = Some (if String.eqb k "pv_callback" then PCallback (fun x => pv x s)
                           else PVal (pv a (if ends_with_star k then m1 else s)))
       end) /\
  (forall n args pm kw c, kw <> None -> evaluate m1 pv s (PythonFunction n args pm kw c) = None) /\
  (forall n pre k post pm e r,
     evaluate m1 pv s (NumexprFunction n (pre ++ k :: post) pm e) = Some r ->
     ld_key pm k ∉ map (ld_key pm) post ->
     exists ld, r = e ld /\
       match map_arg pm k with
       | AFun g => exists v, evaluate m1 pv s g = Some v /\ ld !! ld_key pm k = Some (NVal v)
       | ANum z => ld !! ld_key pm k = Some (NNum z)
       | ANums l => ld !! ld_key pm k = Some (NNums l)
       | AName a => ld !! ld_key pm k = Some (NVal (pv a (if ends_with_star k then m1 else s)))
       end).
Proof.
  split; [|split].
  - intros n args pm kw c r i k He Hk. rewrite evaluate_python in He.
    destruct (python_args m1 pv s _ args) as [vals|] eqn:Ea; [|discriminate].
    destruct kw as [w|]; [discriminate|]. injection He as <-.
    split; [reflexivity|]. exists vals. split; [reflexivity|].
    exact (python_args_lookup m1 pv s pm args vals i k Ea Hk).
  - intros n args pm kw c Hkw. rewrite evaluate_python.
    destruct (python_args m1 pv s _ args); [|reflexivity].
    destruct kw; [reflexivity|]. congruence.
  - intros n pre k post pm e r He Hk. rewrite evaluate_numexpr in He.
    destruct (ne_locals m1 pv s _ ∅ (pre ++ k :: post)) as [ld|] eqn:El; [|discriminate].
    injection He as <-. exists ld. split; [reflexivity|].
    revert El. generalize (∅ : gmap string (@nval V)) as ld0.
    induction pre as [|k' pre IH]; intros ld0 El; cbn [app] in El;
      apply ne_locals_cons_inv in El as [x [El Hx]].
    + rewrite (ne_locals_frame m1 pv s pm _ post _ _ El Hk), lookup_insert_eq.
      destruct (map_arg pm k); [destruct Hx as [v [Ev ->]]; eauto| | |]; subst x; reflexivity.
    + exact (IH _ El).
Qed.

(** Instance of C9: a starred parameter argument at position 1 of a
    [PythonFunction] is bound to the callback's value at index -1; a
    [PythonFunction] with a [kwarg_map] raises; and in a [NumexprFunction]
    with arguments ['x', 'x*'], the value of 'x*' (index -1) overwrites that
    of 'x'. *)
Lemma evaluate_binds_witness :
  let pv := fun (a : string) (sel : Z) => sel in
  evaluate (-1)%Z pv 3%Z (PythonFunction "f" ["x"; "y*"] None None (fun _ => 0%Z)) = Some 0%Z /\
  (["x"; "y*"] : list string) !! 1%nat = Some "y*" /\
  (exists vals : list (@pyval Z), 0%Z = 0%Z /\ vals !! 1%nat = Some (PVal (-1)%Z)) /\
  (Some [("k", "v")] : option (list (string * string))) <> None /\
  evaluate (-1)%Z pv 3%Z (PythonFunction "f" ["x"; "y*"] None (Some [("k", "v")]) (fun _ => 0%Z)) = None /\
  evaluate (-1)%Z pv 3%Z (NumexprFunction "g" (["x"] ++ "x*" :: []) None (fun ld => 0%Z)) = Some 0%Z /\
  (ld_key (V:=Z) None "x*" ∉ map (ld_key (V:=Z) None) []) /\
  (exists ld : gmap string (@nval Z), 0%Z = 0%Z /\ ld !! "x" = Some (NVal (-1)%Z)).
Proof.
  intros pv.
  assert (H0 : evaluate (-1)%Z pv 3%Z (PythonFunction "f" ["x"; "y*"] None None (fun _ => 0%Z)) = Some 0%Z)
    by reflexivity.
  assert (H1 : (["x"; "y*"] : list string) !! 1%nat = Some "y*") by reflexivity.
  assert (Hkw : (Some [("k", "v")] : option (list (string * string))) <> None) by discriminate.
  assert (H2 : evaluate (-1)%Z pv 3%Z (NumexprFunction "g" (["x"] ++ "x*" :: []) None (fun ld => 0%Z)) = Some 0%Z)
    by reflexivity.
  assert (H3 : ld_key (V:=Z) None "x*" ∉ map (ld_key (V:=Z) None) []) by apply not_elem_of_nil.
  destruct (evaluate_binds (-1)%Z pv 3%Z) as (Hpy & Hkwarg & Hne).
  split; [exact H0|]. split; [exact H1|]. split.
  { destruct (Hpy "f" ["x"; "y*"] None None (fun _ => 0%Z) 0%Z 1%nat "y*" H0 H1) as [_ [vals [E L]]].
    exists vals. split; [exact E|]. exact L. }
  split; [exact Hkw|]. split.
  { exact (Hkwarg "f" ["x"; "y*"] None (Some [("k", "v")]) (fun _ => 0%Z) Hkw). }
  split; [exact H2|]. split; [exact H3|].
  destruct (Hne "g" ["x"] "x*" [] None (fun ld => 0%Z) 0%Z H2 H3) as [ld [E L]].
  exists ld. split; [exact E|]. exact L.
Defined.

(** C9 does not hold for an argument named 'pv_callback': mapped to the
    parameter "temp", it is bound to a function over the selection, not to
    the values of "temp". *)
Lemma pv_callback_not_substituted :
  let pv := fun (a : string) (sel : Z) => if String.eqb a "temp" then (100 + sel)%Z else 0%Z in
  let c := fun vals : list (@pyval Z) =>
             match vals with [PVal v] => v | [PCallback f] => (- f "temp")%Z | _ => 0%Z end in
  python_args (-1)%Z pv 3%Z (Some [("pv_callback", EName "temp")]) ["pv_callback"] <> Some [PVal (pv "temp" 3%Z)] /\
  evaluate (-1)%Z pv 3%Z (PythonFunction "f" ["pv_callback"] (Some [("pv_callback", AName "temp")]) None c) = Some (-103)%Z /\
  c [PVal (pv "temp" 3%Z)] = 103%Z.
Proof. intros pv c. split; [vm_compute; discriminate|]. split; reflexivity. Qed.

End FuncsFacts.

(* ===================================================================== *)
(** ** Further properties of the dispatcher *)
(* ===================================================================== *)

Module DispatchMore.
Import Dispatch DispatchFacts.

Lemma not_has_empty {V} (m : gmap work_key V) : Nat.ltb 0 (size m) = false -> m = ∅.
Proof. intros H. apply Nat.ltb_ge in H. apply map_size_empty_iff. lia. Qed.

(** When the dispatcher reports itself clean ([is_dirty] false) after a
    failure-free run and its prep queue is empty, every work entry submitted
    for a brick key has been written, in submission order.  [is_dirty] does
    not look at the prep queue: a [put_work] never changes it. *)
Theorem clean_means_flushed es s :
  run init es = Some s -> Forall no_failure es ->
  (is_dirty s = false -> prep_queue s = [] -> forall k, flat k (written s) = flat k (submitted s)) /\
  (forall k wm w, is_dirty (put_work s k wm w) = is_dirty s).
Proof.
  intros Hr Hf. split; [|reflexivity].
  intros Hd Hp k.
  destruct (run_inv_order es init s inv_init Hr) as [_ Ho].
  specialize (Ho in_order_init Hf k).
  unfold is_dirty in Hd.
  destruct (has_active_work s) eqn:Ea; [done|]. destruct (has_stashed_work s) eqn:Es; [done|].
  destruct (has_pending_work s) eqn:Ep; [done|].
  apply not_has_empty in Ea, Es, Ep.
  unfold act_of, pend_of, stash_of in Ho. rewrite Ea, Es, Ep, Hp in Ho.
  rewrite !lookup_empty in Ho. simpl in Ho. rewrite !app_nil_r in Ho. exact Ho.
Qed.

Lemma clean_means_flushed_witness :
  run init [EPut 7 1 [10]; EOrganize; EProvision 3; ESuccess 3 7] =
    Some (mkD [] [] ∅ ∅ ∅ [] [] [(7, [10])] [(7, [10])]) /\
  Forall no_failure [EPut 7 1 [10]; EOrganize; EProvision 3; ESuccess 3 7] /\
  ((is_dirty (mkD [] [] ∅ ∅ ∅ [] [] [(7, [10])] [(7, [10])]) = false ->
    prep_queue (mkD [] [] ∅ ∅ ∅ [] [] [(7, [10])] [(7, [10])]) = [] ->
    forall k, flat k (written (mkD [] [] ∅ ∅ ∅ [] [] [(7, [10])] [(7, [10])])) =
              flat k (submitted (mkD [] [] ∅ ∅ ∅ [] [] [(7, [10])] [(7, [10])]))) /\
   (forall k wm w, is_dirty (put_work (mkD [] [] ∅ ∅ ∅ [] [] [(7, [10])] [(7, [10])]) k wm w) =
                   is_dirty (mkD [] [] ∅ ∅ ∅ [] [] [(7, [10])] [(7, [10])]))).
Proof.
  assert (Hr : run init [EPut 7 1 [10]; EOrganize; EProvision 3; ESuccess 3 7] =
    Some (mkD [] [] ∅ ∅ ∅ [] [] [(7, [10])] [(7, [10])])) by (vm_compute; reflexivity).
  assert (Hf : Forall no_failure [EPut 7 1 [10]; EOrganize; EProvision 3; ESuccess 3 7])
    by (repeat constructor).
  split; [exact Hr|]. split; [exact Hf|].
  exact (clean_means_flushed _ _ Hr Hf).
Defined.

Lemma dict_get_set_eq d k v : dict_get (dict_set d k v) k = Some v.
Proof.
  induction d as [|[k' v'] d IH]; simpl.
  - by rewrite decide_True.
  - destruct (decide (k = k')); simpl; [by rewrite decide_True|]. by rewrite decide_False.
Qed.

Lemma dict_get_set_ne d k k' v : k' <> k -> dict_get (dict_set d k v) k' = dict_get d k'.
Proof.
  intros Hne. induction d as [|[k0 v0] d IH]; simpl.
  - by rewrite decide_False.
  - destruct (decide (k = k0)) as [->|]; simpl.
    + by rewrite !decide_False.
    + destruct (decide (k' = k0)); [reflexivity|exact IH].
Qed.

(** [_add_failure] counts per packed work: starting from a failures dict
    with no counter for [pack(wp)], [n] successive calls for [wp] leave the
    counter at [n], leave every other counter unchanged, and raise exactly on
    the calls after the fourth. *)
Theorem add_failures_count f wp n :
  dict_get f (EncBytes wp) = None ->
  dict_get (add_failures f wp n).1 (EncBytes wp) = (match n with 0 => None | _ => Some n end) /\
  (forall k, k <> EncBytes wp -> dict_get (add_failures f wp n).1 k = dict_get f k) /\
  (add_failures f wp n).2 = map (fun i => Nat.ltb WORK_FAILURE_RETRIES (S i)) (seq 0 n).
Proof.
  intros H0. induction n as [|n IH]; simpl.
  - split; [exact H0|]. split; reflexivity.
  - destruct (add_failures f wp n) as [f1 r1] eqn:E. simpl in IH. destruct IH as (IH1 & IH2 & IH3).
    unfold add_failure. rewrite IH1. simpl.
    split; [|split].
    + rewrite dict_get_set_eq. destruct n; reflexivity.
    + intros k Hk. rewrite dict_get_set_ne by exact Hk. apply IH2, Hk.
    + rewrite IH3.
      change ((WORK_FAILURE_RETRIES <? 1) :: map (fun i => WORK_FAILURE_RETRIES <? S i) (seq 1 n))
        with (map (fun i => WORK_FAILURE_RETRIES <? S i) (seq 0 (S n))).
      rewrite seq_S, map_app. f_equal. simpl. destruct n; reflexivity.
Qed.

Lemma add_failures_count_witness :
  dict_get [] (EncBytes (Enc 7 1 [10])) = None /\
  dict_get (add_failures [] (Enc 7 1 [10]) 5).1 (EncBytes (Enc 7 1 [10])) = Some 5 /\
  (forall k, k <> EncBytes (Enc 7 1 [10]) -> dict_get (add_failures [] (Enc 7 1 [10]) 5).1 k = dict_get [] k) /\
  (add_failures [] (Enc 7 1 [10]) 5).2 = [false; false; false; false; true].
Proof.
  assert (H : dict_get [] (EncBytes (Enc 7 1 [10])) = None) by reflexivity.
  split; [exact H|].
  exact (add_failures_count [] (Enc 7 1 [10]) 5 H).
Defined.

End DispatchMore.

(* ===================================================================== *)
(** ** Further properties of the persistence layer *)
(* ===================================================================== *)

Module PersistMore.
Import Py Persist PersistFacts.

Lemma map2_inv f xs ys r : map2 f xs ys = Ok r -> length xs = length ys /\ r = zip_with f xs ys.
Proof.
  revert ys r; induction xs as [|x xs IH]; intros [|y ys] r H; simpl in H; try discriminate.
  - injection H as <-. split; reflexivity.
  - destruct (map2 f xs ys) as [r'|] eqn:E; cbn [bind] in H; [|discriminate].
    injection H as <-. destruct (IH ys r' E) as [HL ->]. simpl. split; [lia|reflexivity].
Qed.

Lemma set_pdd_eta l : set_pdd l (ly_pdd l) = l.
Proof. destruct l; reflexivity. Qed.

(** The shape of a successful [expand_domain]: the grid over the new extent
    is written over the layer with its new recorded domain. *)
Lemma expand_domain_shape l total l' :
  expand_domain l total = Ok l' ->
  exists bD cD lst, grid_axes bD total 0 = Ok lst /\
    match ly_pdd l with
    | Some (tD0, bD0, cD0) => bD0 = bD /\ cD0 = cD /\ length total = length tD0
    | None => calculate_brick_size (ly_sdom l) = (bD, cD)
    end /\
    write_all (set_pdd l (Some (total, bD, cD))) (product lst) bD total = Ok l'.
Proof.
  unfold expand_domain. intros H.
  destruct (ly_pdd l) as [[[tD0 bD0] cD0]|] eqn:Ep.
  - destruct (negb (Nat.eqb (length total) (length tD0))) eqn:En; cbn [bind] in H; [discriminate|].
    destruct (map2 (fun x y => x - y)%Z total tD0) as [d|] eqn:E1; cbn [bind] in H; [|discriminate].
    destruct (map2 (fun x y => x + y)%Z tD0 d) as [t|] eqn:E2; cbn [bind] in H; [|discriminate].
    apply map2_inv in E1 as [L1 ->]. apply map2_inv in E2 as [_ ->].
    rewrite zip_add_sub in H by exact L1.
    destruct (grid_axes bD0 total 0) as [lst|] eqn:Eg; cbn [bind] in H; [|discriminate].
    exists bD0, cD0, lst. split; [exact Eg|]. split; [split; [reflexivity|split; [reflexivity|exact L1]]|].
    destruct (product lst); [exact H|exact H].
  - destruct (calculate_brick_size (ly_sdom l)) as [bD cD] eqn:Eb. cbn [bind] in H.
    destruct (grid_axes bD total 0) as [lst|] eqn:Eg; cbn [bind] in H; [|discriminate].
    exists bD, cD, lst. split; [exact Eg|]. split; [reflexivity|].
    destruct (product lst); [exact H|exact H].
Qed.

Lemma write_brick_adds l v bD total l' :
  write_brick l v bD total = Ok l' ->
  exists rt be act, calculate_extents v bD total = Ok (rt, be, act) /\ has_brick l' be /\
    ly_blist l `prefix_of` ly_blist l' /\ ly_pdd l' = ly_pdd l.
Proof.
  unfold write_brick. intros H.
  destruct (calculate_extents v bD total) as [[[rt be] act]|] eqn:Ec; cbn [bind] in H; [|discriminate].
  exists rt, be, act. split; [reflexivity|].
  destruct (existsb _ _) eqn:Ex; injection H as <-.
  - apply existsb_exists in Ex as [[g e] [Hin He]]. apply bool_decide_eq_true_1 in He.
    split; [exists g, e; split; assumption|]. split; reflexivity.
  - split; [|split; [apply prefix_app_r; reflexivity|reflexivity]].
    eexists _, _. split; [apply in_or_app; right; left; reflexivity|reflexivity].
Qed.

Lemma write_all_adds vs l bD total l' :
  write_all l vs bD total = Ok l' ->
  List.Forall (fun v => exists rt be act, calculate_extents v bD total = Ok (rt, be, act) /\ has_brick l' be) vs /\
  ly_blist l `prefix_of` ly_blist l' /\ ly_pdd l' = ly_pdd l.
Proof.
  revert l; induction vs as [|v vs IH]; intros l H; simpl in H.
  - injection H as <-. split; [constructor|]. split; reflexivity.
  - destruct (write_brick l v bD total) as [l1|] eqn:E1; cbn [bind] in H; [|discriminate].
    destruct (write_brick_adds _ _ _ _ _ E1) as (rt & be & act & Ec & Hb & P1 & D1).
    destruct (IH l1 H) as (F & P2 & D2).
    split; [constructor; [|exact F]|].
    + exists rt, be, act. split; [exact Ec|]. eapply has_brick_prefix; eassumption.
    + split; [etrans; eassumption|congruence].
Qed.

Lemma write_all_present vs m bD total :
  List.Forall (fun v => exists rt be act, calculate_extents v bD total = Ok (rt, be, act) /\ has_brick m be) vs ->
  write_all m vs bD total = Ok m.
Proof.
  induction vs as [|v vs IH]; intros F; simpl; [reflexivity|].
  apply List.Forall_cons_iff in F as [(rt & be & act & Ec & g & e & Hin & He) Fr].
  unfold write_brick at 1. rewrite Ec. cbn [bind].
  assert (Ex : existsb (fun '(_, e) => bool_decide (be_extents e = be)) (ly_blist m) = true).
  { apply existsb_exists. exists (g, e). split; [exact Hin|]. apply bool_decide_eq_true_2. exact He. }
  rewrite Ex. cbn [bind]. apply IH, Fr.
Qed.

Lemma layer_ok_set_pdd l p : layer_ok l -> layer_ok (set_pdd l p).
Proof. intros H. exact H. Qed.

Lemma write_brick_layer_ok l v bD total l' :
  layer_ok l -> write_brick l v bD total = Ok l' -> layer_ok l'.
Proof.
  intros (N1 & N2 & F & T & Fi) H. unfold write_brick in H.
  destruct (calculate_extents v bD total) as [[[rt be] act]|]; cbn [bind] in H; [|discriminate].
  destruct (existsb _ _) eqn:Ex; injection H as <-; [repeat split; assumption|].
  unfold layer_ok; cbn [ly_blist ly_tree ly_files ly_next rt_entries].
  split; [|split; [|split; [|split]]].
  - rewrite map_app. apply NoDup_app. split; [exact N1|]. split; [|apply NoDup_singleton].
    intros x Hx Hx'. apply list_elem_of_singleton in Hx'. subst x. simpl in Hx.
    apply list_elem_of_In, in_map_iff in Hx as [[g e] [He Hin]].
    assert (C : existsb (fun '(_, e) => bool_decide (be_extents e = be)) (ly_blist l) = true).
    { apply existsb_exists. exists (g, e). split; [exact Hin|]. apply bool_decide_eq_true_2. exact He. }
    congruence.
  - rewrite map_app. apply NoDup_app. split; [exact N2|]. split; [|apply NoDup_singleton].
    intros x Hx Hx'. apply list_elem_of_singleton in Hx'. subst x.
    apply list_elem_of_In, in_map_iff in Hx as [[g e] [He Hin]]. simpl in He. subst g.
    rewrite List.Forall_forall in F. specialize (F _ Hin). simpl in F. lia.
  - apply List.Forall_app. split; [|constructor; [simpl; lia|constructor]].
    eapply List.Forall_impl; [|exact F]. intros p Hp; simpl in *; lia.
  - rewrite map_app, imap_app, T, length_app. simpl. do 4 f_equal. lia.
  - rewrite !map_app, Fi. reflexivity.
Qed.

Lemma write_all_layer_ok vs l bD total l' :
  layer_ok l -> write_all l vs bD total = Ok l' -> layer_ok l'.
Proof.
  revert l; induction vs as [|v vs IH]; intros l Hok H; simpl in H.
  - injection H as <-. exact Hok.
  - destruct (write_brick l v bD total) as [l1|] eqn:E1; cbn [bind] in H; [|discriminate].
    eapply IH; [eapply write_brick_layer_ok; eassumption|exact H].
Qed.

Lemma dget_nodup {A} (d : list (guid * A)) g a :
  NoDup (map fst d) -> In (g, a) d -> dget d g = Ok a.
Proof.
  induction d as [|[g' a'] d IH]; intros N Hin; [destruct Hin|].
  simpl in N. apply NoDup_cons in N as [Nn N]. simpl.
  destruct Hin as [Heq|Hin].
  - injection Heq as -> ->. rewrite Nat.eqb_refl. reflexivity.
  - destruct (Nat.eqb_spec g g') as [->|]; [|apply IH; assumption].
    exfalso. apply Nn. apply list_elem_of_In, in_map_iff. exists (g', a). split; [reflexivity|exact Hin].
Qed.

Lemma dget_in {A} (d : list (guid * A)) g :
  In g (map fst d) -> exists a, dget d g = Ok a.
Proof.
  induction d as [|[g' a'] d IH]; intros Hin; [destruct Hin|]. simpl.
  destruct (Nat.eqb_spec g g') as [->|Hne]; [eexists; reflexivity|].
  apply IH. destruct Hin as [Heq|Hin]; [simpl in Heq; congruence|exact Hin].
Qed.

Lemma expand_domain_keeps_ok l total l' :
  layer_ok l -> expand_domain l total = Ok l' -> layer_ok l'.
Proof.
  intros Hok H. destruct (expand_domain_shape _ _ _ H) as (bD & cD & lst & _ & _ & Hw).
  eapply write_all_layer_ok; [apply layer_ok_set_pdd, Hok|exact Hw].
Qed.

(** [expand_domain] keeps a parameter's brick list, R-tree and brick files
    consistent ([layer_ok]): distinct extents and guids, R-tree ids that
    index the brick list, one brick file per brick. *)
Theorem expand_domain_layer_ok l total l' :
  layer_ok l -> expand_domain l total = Ok l' -> layer_ok l'.
Proof.
  exact (expand_domain_keeps_ok l total l').
Qed.

Lemma expand_domain_layer_ok_witness :
  layer_ok (layer_of (init_parameter None [10%Z])) /\
  expand_domain (layer_of (init_parameter None [10%Z])) [20%Z]
    = Ok (layer_of (expand_domain (layer_of (init_parameter None [10%Z])) [20%Z])) /\
  layer_ok (layer_of (expand_domain (layer_of (init_parameter None [10%Z])) [20%Z])).
Proof.
  assert (H0 : layer_ok (layer_of (init_parameter None [10%Z]))).
  { vm_compute. split; [apply (bool_decide_unpack _); vm_compute; exact I|].
    split; [apply (bool_decide_unpack _); vm_compute; exact I|].
    split; [apply (bool_decide_unpack _); vm_compute; exact I|]. split; [reflexivity|reflexivity]. }
  assert (H1 : expand_domain (layer_of (init_parameter None [10%Z])) [20%Z]
    = Ok (layer_of (expand_domain (layer_of (init_parameter None [10%Z])) [20%Z]))) by (vm_compute; reflexivity).
  split; [exact H0|]. split; [exact H1|].
  apply (expand_domain_layer_ok _ [20%Z] _ H0 H1).
Defined.

(** A parameter registered by [init_parameter] starts out consistent. *)
Theorem init_parameter_layer_ok sdom total l :
  init_parameter sdom total = Ok l -> layer_ok l.
Proof.
  unfold init_parameter. destruct (calculate_brick_size sdom) as [bD cD]. intros H.
  eapply expand_domain_keeps_ok; [|exact H].
  split; [constructor|]. split; [constructor|]. split; [constructor|]. split; reflexivity.
Qed.

Lemma init_parameter_layer_ok_witness :
  init_parameter (Some [3%Z]) [10%Z; 4%Z] = Ok (layer_of (init_parameter (Some [3%Z]) [10%Z; 4%Z])) /\
  layer_ok (layer_of (init_parameter (Some [3%Z]) [10%Z; 4%Z])).
Proof.
  assert (H : init_parameter (Some [3%Z]) [10%Z; 4%Z] = Ok (layer_of (init_parameter (Some [3%Z]) [10%Z; 4%Z])))
    by (vm_compute; reflexivity).
  split; [exact H|]. exact (init_parameter_layer_ok _ _ _ H).
Defined.

(** Expanding a parameter twice to the same total extents changes nothing
    the second time: every brick of the grid is already present, so
    [write_brick] returns early on each of them. *)
Theorem expand_domain_idempotent l total l' :
  expand_domain l total = Ok l' -> expand_domain l' total = Ok l'.
Proof.
  intros H. destruct (expand_domain_shape _ _ _ H) as (bD & cD & lst & Eg & _ & Hw).
  destruct (write_all_adds _ _ _ _ _ Hw) as (F & _ & Hp). cbn [ly_pdd set_pdd] in Hp.
  unfold expand_domain. rewrite Hp, Nat.eqb_refl. cbn [negb].
  rewrite map2_ok by reflexivity. cbn [bind].
  rewrite map2_ok by (rewrite length_zip_with; lia). cbn [bind].
  rewrite zip_add_sub by reflexivity. rewrite <- Hp, set_pdd_eta, Eg. cbn [bind].
  destruct (product lst); [reflexivity|]. apply write_all_present, F.
Qed.

Lemma expand_domain_idempotent_witness :
  expand_domain (layer_of (init_parameter None [10%Z])) [20%Z]
    = Ok (layer_of (expand_domain (layer_of (init_parameter None [10%Z])) [20%Z])) /\
  expand_domain (layer_of (expand_domain (layer_of (init_parameter None [10%Z])) [20%Z])) [20%Z]
    = Ok (layer_of (expand_domain (layer_of (init_parameter None [10%Z])) [20%Z])).
Proof.
  assert (H : expand_domain (layer_of (init_parameter None [10%Z])) [20%Z]
    = Ok (layer_of (expand_domain (layer_of (init_parameter None [10%Z])) [20%Z]))) by (vm_compute; reflexivity).
  split; [exact H|]. exact (expand_domain_idempotent _ _ _ H).
Defined.

(** On a consistent layer, every hit [(i, g)] of an R-tree query
    ([list_bricks], [_bricks_from_slice]) is the [i]-th brick of the brick
    list, has guid [g], is found under [g] in the brick list, and has a brick
    file. *)
Theorem list_bricks_hit_exists l start end_ i g :
  layer_ok l -> In (i, g) (list_bricks (ly_tree l) start end_) ->
  exists e, ly_blist l !! i = Some (g, e) /\ dget (ly_blist l) g = Ok e /\
    exists d, dget (ly_files l) g = Ok d.
Proof.
  intros (N1 & N2 & F & T & Fi) Hin. unfold list_bricks, intersection in Hin.
  apply in_map_iff in Hin as [[[j c] g'] [Hx Hin]].
  apply list_elem_of_In, list_elem_of_filter in Hin as [_ Hin]. apply list_elem_of_In in Hin.
  assert (Him : In (i, g) (imap (fun i p => (i, p.1)) (ly_blist l))).
  { rewrite <- T. apply in_map_iff. exists (j, c, g'). split; assumption. }
  apply list_elem_of_In, elem_of_lookup_imap in Him as (k & [g1 e] & Heq & Hk).
  injection Heq as -> ->. simpl. exists e.
  split; [exact Hk|]. apply list_elem_of_lookup_2, list_elem_of_In in Hk.
  split; [apply dget_nodup; assumption|].
  apply dget_in. rewrite Fi. apply in_map_iff. exists (g1, e). split; [reflexivity|exact Hk].
Qed.

Lemma list_bricks_hit_exists_witness :
  layer_ok (layer_of (init_parameter None [10%Z])) /\
  In (1%nat, 1%nat) (list_bricks (ly_tree (layer_of (init_parameter None [10%Z]))) [7%Z; 0%Z] [8%Z; 0%Z]) /\
  exists e, ly_blist (layer_of (init_parameter None [10%Z])) !! 1%nat = Some (1%nat, e) /\
    dget (ly_blist (layer_of (init_parameter None [10%Z]))) 1%nat = Ok e /\
    exists d, dget (ly_files (layer_of (init_parameter None [10%Z]))) 1%nat = Ok d.
Proof.
  assert (H0 : layer_ok (layer_of (init_parameter None [10%Z]))).
  { vm_compute. split; [apply (bool_decide_unpack _); vm_compute; exact I|].
    split; [apply (bool_decide_unpack _); vm_compute; exact I|].
    split; [apply (bool_decide_unpack _); vm_compute; exact I|]. split; [reflexivity|reflexivity]. }
  assert (H1 : In (1%nat, 1%nat) (list_bricks (ly_tree (layer_of (init_parameter None [10%Z]))) [7%Z; 0%Z] [8%Z; 0%Z]))
    by (vm_compute; left; reflexivity).
  split; [exact H0|]. split; [exact H1|].
  exact (list_bricks_hit_exists _ _ _ _ _ H0 H1).
Defined.

End PersistMore.

(* ===================================================================== *)
(** ** Further properties of the QC functions *)
(* ===================================================================== *)

Module QCMore.
Import Py QC.
Local Open Scope Q_scope.

(** Case analysis on the leading [res] binds and tests of a hypothesis
    [f ... = Ok _], dropping the failing branches. *)
Ltac res_cases H :=
  repeat (cbn [bind] in H;
    match type of H with
    | bind ?m _ = _ => let E := fresh "E" in destruct m eqn:E; cbn [bind] in H; try discriminate H
    | (if ?b then _ else _) = _ => let E := fresh "E" in destruct b eqn:E; try discriminate H
    end).

Lemma spike_loop_flags d acc N tmp out iis out' :
  spike_loop d acc N tmp out iis = Ok out' ->
  length out' = length out /\ (List.Forall flag out -> List.Forall flag out').
Proof.
  revert out; induction iis as [|ii r IH]; intros out H; simpl in H.
  - injection H as <-. split; [reflexivity|exact id].
  - destruct (spike_step d acc N tmp out ii) as [o|] eqn:Es; cbn [bind] in H; [|discriminate].
    destruct (IH o H) as [L F]. unfold spike_step in Es. res_cases Es.
    + injection Es as <-. rewrite length_insert in L. split; [exact L|].
      intros Fo. apply F, Forall_insert; [exact Fo|right; reflexivity].
    + injection Es as <-. split; [exact L|exact F].
Qed.

(** [dataqc_spiketest], when it returns, returns one [0]/[1] flag per element
    of [dat]. *)
Theorem spiketest_flags dat acc N L out :
  dataqc_spiketest dat acc N L = Ok out ->
  length out = nd_size dat /\ List.Forall flag out.
Proof.
  unfold dataqc_spiketest. intros H. res_cases H.
  - destruct (nd_shape dat) as [|n0 [|n1 r]]; [discriminate|idtac|discriminate].
    res_cases H.
    match goal with
    | H1 : spike_loop _ _ _ _ (repeat _ _) _ = Ok ?o1, H2 : spike_loop _ _ _ _ ?o1 _ = Ok _ |- _ =>
      destruct (spike_loop_flags _ _ _ _ _ _ _ H1) as [L1 F1];
      destruct (spike_loop_flags _ _ _ _ _ _ _ H2) as [L2 F2]
    end.
    destruct (spike_loop_flags _ _ _ _ _ _ _ H) as [L3 F3].
    rewrite List.repeat_length in L1. split; [lia|].
    apply F3, F2, F1, List.Forall_forall. intros z Hz. apply repeat_spec in Hz. left. exact Hz.
  - injection H as <-. split; [apply List.repeat_length|].
    apply List.Forall_forall. intros z Hz. apply repeat_spec in Hz. left. exact Hz.
Qed.

Lemma spiketest_flags_witness :
  dataqc_spiketest
    {| nd_kind := "i"; nd_shape := [8%nat]; nd_data := map inject_Z [-1; 3; 40; -1; 1; -6; -6; 1]%Z |}
    {| nd_kind := "f"; nd_shape := []; nd_data := [1 # 10] |}
    {| nd_kind := "i"; nd_shape := []; nd_data := [5%Q] |}
    {| nd_kind := "i"; nd_shape := []; nd_data := [5%Q] |}
  = Ok [1; 1; 0; 1; 1; 1; 1; 1]%Z /\
  length [1; 1; 0; 1; 1; 1; 1; 1]%Z = 8%nat /\ List.Forall flag [1; 1; 0; 1; 1; 1; 1; 1]%Z.
Proof.
  assert (H : dataqc_spiketest
    {| nd_kind := "i"; nd_shape := [8%nat]; nd_data := map inject_Z [-1; 3; 40; -1; 1; -6; -6; 1]%Z |}
    {| nd_kind := "f"; nd_shape := []; nd_data := [1 # 10] |}
    {| nd_kind := "i"; nd_shape := []; nd_data := [5%Q] |}
    {| nd_kind := "i"; nd_shape := []; nd_data := [5%Q] |}
  = Ok [1; 1; 0; 1; 1; 1; 1; 1]%Z) by (vm_compute; reflexivity).
  split; [exact H|]. exact (spiketest_flags _ _ _ _ _ H).
Defined.

Lemma zero_fill_flags (js : list Z) out :
  length (foldr (fun j o => <[Z.to_nat j := 0%Z]> o) out js) = length out /\
  (List.Forall flag out -> List.Forall flag (foldr (fun j o => <[Z.to_nat j := 0%Z]> o) out js)).
Proof.
  induction js as [|j js [IL IF]]; simpl; [split; [reflexivity|exact id]|].
  rewrite length_insert. split; [exact IL|]. intros Fo. apply Forall_insert; [apply IF, Fo|left; reflexivity].
Qed.



Lemma stuck_loop_flags x ll r reso num out iis out' :
  stuck_loop x ll r reso num out iis = Ok out' ->
  length out' = length out /\ (List.Forall flag out -> List.Forall flag out').
Proof.
  revert out; induction iis as [|ii rest IH]; intros out H; simpl in H.
  - injection H as <-. split; [reflexivity|exact id].
  - destruct (Z.leb ll ii); [discriminate|].
    destruct (IH _ H) as [L F]. destruct (forallb _ _).
    + destruct (zero_fill_flags (range_list ii (Z.min (ii + num) (Z.of_nat (length out))) 1) out) as [L0 F0].
      split; [congruence|]. intros Fo. apply F, F0, Fo.
    + split; [exact L|exact F].
Qed.

(** [dataqc_stuckvaluetest], when it returns, returns one [0]/[1] flag per
    element of [x], for an [x] of any number of dimensions. *)
Theorem stuckvaluetest_flags x reso num out :
  dataqc_stuckvaluetest x reso num = Ok out ->
  length out = nd_size x /\ List.Forall flag out.
Proof.
  unfold dataqc_stuckvaluetest. intros H. res_cases H.
  - injection H as <-. split; [apply List.repeat_length|].
    apply List.Forall_forall. intros z Hz. apply repeat_spec in Hz. left. exact Hz.
  - destruct (nd_shape num); [|discriminate].
    destruct (Ascii.eqb (nd_kind num) "i"); [|destruct (Ascii.eqb (nd_kind num) "f"); discriminate].
    destruct (stuck_loop_flags _ _ _ _ _ _ _ _ H) as [L F]. rewrite List.repeat_length in L.
    split; [exact L|]. apply F, List.Forall_forall. intros z Hz. apply repeat_spec in Hz. right. exact Hz.
Qed.

Lemma stuckvaluetest_flags_witness :
  dataqc_stuckvaluetest
    {| nd_kind := "i"; nd_shape := [6%nat]; nd_data := map inject_Z [1; 4; 4; 4; 2; 3]%Z |}
    {| nd_kind := "f"; nd_shape := []; nd_data := [1 # 2] |}
    {| nd_kind := "i"; nd_shape := []; nd_data := [3%Q] |}
  = Ok [1; 0; 0; 0; 1; 1]%Z /\
  length [1; 0; 0; 0; 1; 1]%Z = 6%nat /\ List.Forall flag [1; 0; 0; 0; 1; 1]%Z.
Proof.
  assert (H : dataqc_stuckvaluetest
    {| nd_kind := "i"; nd_shape := [6%nat]; nd_data := map inject_Z [1; 4; 4; 4; 2; 3]%Z |}
    {| nd_kind := "f"; nd_shape := []; nd_data := [1 # 2] |}
    {| nd_kind := "i"; nd_shape := []; nd_data := [3%Q] |}
  = Ok [1; 0; 0; 0; 1; 1]%Z) by (vm_compute; reflexivity).
  split; [exact H|]. exact (stuckvaluetest_flags _ _ _ _ H).
Defined.














End QCMore.

(* ===================================================================== *)
(** ** Map names of parameter functions *)
(* ===================================================================== *)

Module FuncsMore.
Import Funcs.

Lemma is_prefix_space p x y :
  ~ In " "%char p -> is_prefix p (x ++ " "%char :: y) = true -> is_prefix p x = true.
Proof.
  revert x; induction p as [|c p IH]; intros x Hp H; [reflexivity|].
  destruct x as [|d x]; simpl in H |- *.
  - apply andb_prop in H as [H _]. apply Ascii.eqb_eq in H. subst c. exfalso. apply Hp. left. reflexivity.
  - apply andb_prop in H as [Hc H]. rewrite Hc. simpl. apply IH; [|exact H].
    intros Hin. apply Hp. right. exact Hin.
Qed.

Lemma split_go_nonempty sep s k cur : split_go sep s k cur <> [].
Proof.
  revert k cur; induction s as [|c s IH]; intros k cur; simpl; [discriminate|].
  destruct k; [destruct (is_prefix sep (c :: s)); [discriminate|apply IH]|apply IH].
Qed.

(** One piece out of [split] means no occurrence of the separator. *)
Lemma split_go_single sep s k cur :
  length (split_go sep s k cur) = 1%nat ->
  forall i, (k <= i < length s)%nat -> is_prefix sep (drop i s) = false.
Proof.
  revert k cur; induction s as [|c s IH]; intros k cur H i Hi; simpl in Hi; [lia|].
  destruct k as [|k]; simpl in H.
  - destruct (is_prefix sep (c :: s)) eqn:E.
    + simpl in H. destruct (split_go sep s (length sep - 1) []) eqn:E2; [|simpl in H; lia].
      exfalso. exact (split_go_nonempty _ _ _ _ E2).
    + destruct i as [|i]; [exact E|]. apply (IH 0%nat (cur ++ [c]) H). lia.
  - destruct i as [|i]; [lia|]. apply (IH k cur H). lia.
Qed.

Lemma split_go_plain sep s t cur :
  (forall i, (i < length s)%nat -> is_prefix sep (drop i (s ++ t)) = false) ->
  split_go sep (s ++ t) 0 cur = split_go sep t 0 (cur ++ s).
Proof.
  revert cur; induction s as [|c s IH]; intros cur H; simpl.
  - rewrite app_nil_r. reflexivity.
  - pose proof (H 0%nat ltac:(simpl; lia)) as H0. simpl in H0. rewrite H0, IH.
    + rewrite <- app_assoc. reflexivity.
    + intros i Hi. apply (H (S i)). simpl. lia.
Qed.

Lemma no_sep_space a r :
  py_split a map_sep = [a] ->
  forall i, (i < length a)%nat -> is_prefix map_sep (drop i (a ++ " "%char :: r)) = false.
Proof.
  intros Ha i Hi. pose proof (split_go_single map_sep a 0 [] (f_equal length Ha) i ltac:(lia)) as Hf.
  rewrite drop_app_le by lia.
  destruct (is_prefix map_sep (drop i a ++ " "%char :: r)) eqn:E; [|reflexivity].
  apply is_prefix_space in E; [congruence|]. simpl. intros [H|[H|[H|[]]]]; discriminate.
Qed.

Lemma split_no_sep n : py_split n map_sep = [n] -> forall cur, split_go map_sep n 0 cur = [cur ++ n].
Proof.
  intros Hn cur. rewrite <- (app_nil_r n) at 1. rewrite split_go_plain; [reflexivity|].
  intros i Hi. rewrite app_nil_r. apply (split_go_single map_sep n 0 [] (f_equal length Hn)). lia.
Qed.

Lemma lstrip_snoc_ws l w :
  is_ws w = true -> lstrip (l ++ [w]) = match lstrip l with [] => [] | m => m ++ [w] end.
Proof.
  intros Hw. induction l as [|c l IH]; simpl.
  - rewrite Hw. reflexivity.
  - destruct (is_ws c); [exact IH|reflexivity].
Qed.

Lemma strip_snoc_ws l w : is_ws w = true -> strip (l ++ [w]) = strip l.
Proof.
  intros Hw. unfold strip. rewrite (lstrip_snoc_ws l w Hw).
  destruct (lstrip l) as [|c m] eqn:E; [reflexivity|].
  rewrite rev_app_distr. simpl. rewrite Hw. reflexivity.
Qed.

Lemma strip_cons_ws l w : is_ws w = true -> strip (w :: l) = strip l.
Proof. intros Hw. unfold strip. simpl. rewrite Hw. reflexivity. Qed.

(** [_parse_map_name] inverts [_get_map_name]: for a name [n] without the
    separator [':|:'], [n] with no argument name ([None]) parses back as
    [('', n)], and [a :|: n] for an argument name [a] without the separator,
    with [a] and [n] free of surrounding whitespace, parses back as [(a, n)]. *)
Theorem map_name_round_trip (a n : list ascii) :
  py_split n map_sep = [n] ->
  parse_map_name (get_map_name None n) = ([], n) /\
  (py_split a map_sep = [a] -> strip a = a -> strip n = n ->
   parse_map_name (get_map_name (Some a) n) = (a, n)).
Proof.
  intros Hn. split.
  - unfold parse_map_name, get_map_name, py_split. rewrite (split_no_sep n Hn). reflexivity.
  - intros Ha Hsa Hsn. destruct (decide (a = [])) as [->|Hne].
    + unfold parse_map_name, get_map_name, py_split. rewrite (split_no_sep n Hn). reflexivity.
    + assert (Hg : get_map_name (Some a) n = a ++ " "%char :: ":"%char :: "|"%char :: ":"%char :: " "%char :: n)
        by (destruct a; [contradiction|reflexivity]).
      rewrite Hg. unfold parse_map_name, py_split.
      rewrite split_go_plain by (intros i Hi; apply no_sep_space; assumption).
      rewrite app_nil_l.
      change (split_go map_sep (" "%char :: ":"%char :: "|"%char :: ":"%char :: " "%char :: n) 0 a)
        with ((a ++ [" "%char]) :: split_go map_sep n 0 [" "%char]).
      rewrite (split_no_sep n Hn). cbn iota.
      rewrite strip_snoc_ws by reflexivity. change ([" "%char] ++ n) with (" "%char :: n).
      rewrite strip_cons_ws by reflexivity.
      rewrite Hsa, Hsn. reflexivity.
Qed.

Lemma map_name_round_trip_witness :
  parse_map_name (get_map_name None (String.list_ascii_of_string "temp")) = ([], String.list_ascii_of_string "temp") /\
  parse_map_name (get_map_name (Some (String.list_ascii_of_string "x")) (String.list_ascii_of_string "temp"))
    = (String.list_ascii_of_string "x", String.list_ascii_of_string "temp").
Proof.
  destruct (map_name_round_trip (String.list_ascii_of_string "x") (String.list_ascii_of_string "temp")) as [H1 H2];
    [vm_compute; reflexivity|].
  split; [exact H1|]. apply H2; vm_compute; reflexivity.
Defined.

End FuncsMore.
